(** * ki.net: session lifecycle and liveness supervision

    A shallow embedding of [ki/net.py]: the session classes, the protocol
    (connection coordinator) classes and the two endpoints, followed by the
    properties of the lifecycle layer.

    Conventions of the embedding:
    - Python objects that are mutated in place and shared (sessions) live in
      a store, addressed by reference; the asyncio event loop is a table of
      tasks, a task handle being its index in the table;
    - every effect that leaves a session (logging, transport calls, task
      creation and cancellation, calls into the native protocol engine) is
      appended to a trace, oldest event first;
    - methods are computations in a state-and-exception monad;
    - time is logical: intervals are integers counting time-units, and a
      coroutine suspended in [asyncio.sleep(d)] is resumed exactly [d]
      units later. *)

From stdpp Require Import base gmap list strings.
From Stdlib Require Import ZArith Lia.

(** ** Exceptions and the state-and-exception monad *)

Inductive exn :=
  | AttributeError   (* an attribute is read before any assignment, or on None *)
  | AllocationError  (* ki.util: the identifier pool is exhausted *)
  | FreeError        (* ki.util: an identifier that is not allocated is freed *)
  | ReferenceError.  (* a reference outside the store; never raised by Python *)

Global Instance exn_eq_dec : EqDecision exn.
Proof. solve_decision. Defined.

Inductive Res (St A : Type) :=
  | Ok (a : A) (st : St)
  | Raise (e : exn) (st : St).
Arguments Ok {St A} a st.
Arguments Raise {St A} e st.

Definition M (St A : Type) : Type := St → Res St A.

Global Instance M_ret St : MRet (M St) := λ A a st, Ok a st.
Global Instance M_bind St : MBind (M St) := λ A B f m st,
  match m st with
  | Ok a st' => f a st'
  | Raise e st' => Raise e st'
  end.

Definition gets {St A} (f : St → A) : M St A := λ st, Ok (f st) st.
Definition modify {St} (f : St → St) : M St unit := λ st, Ok tt (f st).
Definition raise {St A} (e : exn) : M St A := λ st, Raise e st.

(** [try: m except e: h], with Python's [else] branch as the continuation
    of a successful [m]. *)
Definition try_except {St A B} (m : M St A) (e : exn)
    (handler : M St B) (orelse : A → M St B) : M St B := λ st,
  match m st with
  | Ok a st' => orelse a st'
  | Raise e' st' => if decide (e' = e) then handler st' else Raise e' st'
  end.

(** The final state of a run, whether it returned or raised. *)
Definition state_of {St A} (r : Res St A) : St :=
  match r with Ok _ st => st | Raise _ st => st end.

(** ** Values shared by the classes *)

Definition ref := nat.        (* object identity of a session *)
Definition handle := nat.     (* an asyncio task: its index in the loop *)
Definition Transport := nat.  (* an asyncio transport *)

Inductive AccessLevel := NEW | ESTABLISHED | AUTHENTICATED.

Definition value (a : AccessLevel) : Z :=
  match a with NEW => 0 | ESTABLISHED => 1 | AUTHENTICATED => 2 end%Z.

(** Modelled from the spec: [SessionCloseErrorCode] is imported from
    [ki.protocol.net], which is not part of the sources.  The spec lists the
    reason codes [INVALID_MESSAGE] and [SESSION_DIED] and one value for
    application closures, which [net.py] names in a comment. *)
Inductive SessionCloseErrorCode :=
  | INVALID_MESSAGE
  | SESSION_DIED
  | UNHANDLED_APPLICATION_MESSAGE.

Global Instance SessionCloseErrorCode_eq_dec : EqDecision SessionCloseErrorCode.
Proof. solve_decision. Defined.

(** An attribute of a Python object: absent until its first assignment. *)
Inductive attr (A : Type) := Unset | Attr (a : A).
Arguments Unset {A}.
Arguments Attr {A} a.

(** ** The event loop and the trace *)

Inductive Coro :=
  | _ensure_alive (self : ref)       (* SessionBase._ensure_alive *)
  | _keep_alive (self : ref).        (* Server/ClientSessionBase._keep_alive *)

Global Instance Coro_eq_dec : EqDecision Coro.
Proof. solve_decision. Defined.

Record Task := { coro : Coro; cancelled : bool }.

Inductive Logger := SESSION | PROTOCOL | SERVER | CLIENT.
Inductive Level := DEBUG | WARNING.

(** The log records, one constructor per format string of [net.py]. *)
Inductive Msg :=
  | msg_invalid_packet (id : Z)
  | msg_close (id : Z) (error : SessionCloseErrorCode)
  | msg_on_established (id : Z)
  | msg_timed_out (id : Z)
  | msg_on_message (id : Z) (handler : string)
  | msg_no_handler (id : Z) (handler : string)
  | msg_invalid_message (id : Z)
  | msg_connection_made (host : string) (port : Z)
  | msg_connection_lost
  | msg_alloc_failed
  | msg_refusing.

Inductive Event :=
  | ELog (lg : Logger) (lv : Level) (m : Msg)
  | EEnsureFuture (h : handle) (c : Coro)        (* asyncio.ensure_future *)
  | ECancel (h : handle)                         (* Task.cancel *)
  | ETransportClose (t : Transport)              (* transport.close *)
  | ESendKeepAlive (self : ref) (arg : option Z) (* native send_keep_alive *)
  | EOnConnected (self : ref).                   (* native on_connected *)

Global Instance Logger_eq_dec : EqDecision Logger.
Proof. solve_decision. Defined.
Global Instance Level_eq_dec : EqDecision Level.
Proof. solve_decision. Defined.
Global Instance Msg_eq_dec : EqDecision Msg.
Proof. solve_decision. Defined.
Global Instance Event_eq_dec : EqDecision Event.
Proof. solve_decision. Defined.

Record Loop := { tasks : list Task; trace : list Event }.

Definition emit (e : Event) (l : Loop) : Loop :=
  {| tasks := tasks l; trace := trace l ++ [e] |}.

(** [asyncio.ensure_future(coro)]: the new task is scheduled and its handle
    returned; nothing of the coroutine runs yet. *)
Definition ensure_future (c : Coro) (l : Loop) : handle * Loop :=
  let h := length (tasks l) in
  (h, {| tasks := tasks l ++ [{| coro := c; cancelled := false |}];
         trace := trace l ++ [EEnsureFuture h c] |}).

Definition cancel_task (t : Task) : Task :=
  {| coro := coro t; cancelled := true |}.

(** [task.cancel()]. *)
Definition cancel (h : handle) (l : Loop) : Loop :=
  {| tasks := alter cancel_task h (tasks l);
     trace := trace l ++ [ECancel h] |}.

(** A task runs as long as it is scheduled and has not been cancelled. *)
Definition runs (l : Loop) (h : handle) (c : Coro) : Prop :=
  tasks l !! h = Some {| coro := c; cancelled := false |}.

(** ** Session objects *)

Inductive SessionClass :=
  | ServerSession_cls
  | ServerDMLSession_cls
  | ClientSession_cls
  | ClientDMLSession_cls.

Definition is_server (c : SessionClass) : bool :=
  match c with
  | ServerSession_cls | ServerDMLSession_cls => true
  | _ => false
  end.

(** The attributes of a session.  [self_id], [access_level] and [alive]
    belong to the native base class; [_keep_alive_task] is the one attribute
    that [SessionBase.close] reads and [SessionBase.__init__] does not
    assign, so its absence is modelled. *)
Record Session := {
  this : ref;
  class : SessionClass;
  transport : option Transport;
  ensure_alive_interval : Z;
  _ensure_alive_task : option handle;
  keep_alive_interval : Z;
  _keep_alive_task : attr (option handle);
  self_id : Z;
  access_level : Z;
  alive : bool;
}.

Definition set_transport (v : option Transport) (s : Session) : Session :=
  {| this := this s; class := class s; transport := v;
     ensure_alive_interval := ensure_alive_interval s;
     _ensure_alive_task := _ensure_alive_task s;
     keep_alive_interval := keep_alive_interval s;
     _keep_alive_task := _keep_alive_task s;
     self_id := self_id s; access_level := access_level s; alive := alive s |}.

Definition set_ensure_alive_interval (v : Z) (s : Session) : Session :=
  {| this := this s; class := class s; transport := transport s;
     ensure_alive_interval := v;
     _ensure_alive_task := _ensure_alive_task s;
     keep_alive_interval := keep_alive_interval s;
     _keep_alive_task := _keep_alive_task s;
     self_id := self_id s; access_level := access_level s; alive := alive s |}.

Definition set__ensure_alive_task (v : option handle) (s : Session) : Session :=
  {| this := this s; class := class s; transport := transport s;
     ensure_alive_interval := ensure_alive_interval s;
     _ensure_alive_task := v;
     keep_alive_interval := keep_alive_interval s;
     _keep_alive_task := _keep_alive_task s;
     self_id := self_id s; access_level := access_level s; alive := alive s |}.

Definition set_keep_alive_interval (v : Z) (s : Session) : Session :=
  {| this := this s; class := class s; transport := transport s;
     ensure_alive_interval := ensure_alive_interval s;
     _ensure_alive_task := _ensure_alive_task s;
     keep_alive_interval := v;
     _keep_alive_task := _keep_alive_task s;
     self_id := self_id s; access_level := access_level s; alive := alive s |}.

Definition set__keep_alive_task (v : attr (option handle)) (s : Session) : Session :=
  {| this := this s; class := class s; transport := transport s;
     ensure_alive_interval := ensure_alive_interval s;
     _ensure_alive_task := _ensure_alive_task s;
     keep_alive_interval := keep_alive_interval s;
     _keep_alive_task := v;
     self_id := self_id s; access_level := access_level s; alive := alive s |}.

Definition set_self_id (v : Z) (s : Session) : Session :=
  {| this := this s; class := class s; transport := transport s;
     ensure_alive_interval := ensure_alive_interval s;
     _ensure_alive_task := _ensure_alive_task s;
     keep_alive_interval := keep_alive_interval s;
     _keep_alive_task := _keep_alive_task s;
     self_id := v; access_level := access_level s; alive := alive s |}.

Definition set_access_level (v : Z) (s : Session) : Session :=
  {| this := this s; class := class s; transport := transport s;
     ensure_alive_interval := ensure_alive_interval s;
     _ensure_alive_task := _ensure_alive_task s;
     keep_alive_interval := keep_alive_interval s;
     _keep_alive_task := _keep_alive_task s;
     self_id := self_id s; access_level := v; alive := alive s |}.

Definition set_alive (v : bool) (s : Session) : Session :=
  {| this := this s; class := class s; transport := transport s;
     ensure_alive_interval := ensure_alive_interval s;
     _ensure_alive_task := _ensure_alive_task s;
     keep_alive_interval := keep_alive_interval s;
     _keep_alive_task := _keep_alive_task s;
     self_id := self_id s; access_level := access_level s; alive := v |}.

(** A session method runs on its receiver and on the event loop. *)
Record SS := { self : Session; loop : Loop }.

Definition upd (f : Session → Session) : M SS unit :=
  modify (λ st, {| self := f (self st); loop := loop st |}).

Definition on_loop (f : Loop → Loop) : M SS unit :=
  modify (λ st, {| self := self st; loop := f (loop st) |}).

Definition log (lg : Logger) (lv : Level) (m : Msg) : M SS unit :=
  on_loop (emit (ELog lg lv m)).

Definition spawn (c : Coro) : M SS handle := λ st,
  let (h, l) := ensure_future c (loop st) in
  Ok h {| self := self st; loop := l |}.

(** Reading an attribute raises when it was never assigned. *)
Definition read {A} (f : Session → attr A) : M SS A := λ st,
  match f (self st) with
  | Attr a => Ok a st
  | Unset => Raise AttributeError st
  end.

(** The object as [object.__new__] leaves it, before any [__init__]. *)
Definition blank (r : ref) (c : SessionClass) (alive0 : bool) : Session :=
  {| this := r; class := c; transport := None;
     ensure_alive_interval := 0;
     _ensure_alive_task := None;
     keep_alive_interval := 0;
     _keep_alive_task := Unset;
     self_id := 0; access_level := value NEW; alive := alive0 |}.

(** ** class SessionBase *)

Module SessionBase.

(** [__init__(self, transport, ensure_alive_interval=10.0)].  An omitted
    keyword argument is [None]. *)
Definition __init__ (transport : Transport)
    (ensure_alive_interval : option Z) : M SS unit :=
  upd (set_transport (Some transport)) ;;
  upd (set_ensure_alive_interval (default 10%Z ensure_alive_interval)) ;;
  r ← gets (λ st, this (self st));
  h ← spawn (_ensure_alive r);
  upd (set__ensure_alive_task (Some h)).

Definition close (error : SessionCloseErrorCode) : M SS unit :=
  w ← gets (λ st, _ensure_alive_task (self st));
  match w with
  | Some h => on_loop (cancel h) ;; upd (set__ensure_alive_task None)
  | None => mret tt
  end ;;
  k ← read _keep_alive_task;
  match k with
  | Some h => on_loop (cancel h) ;; upd (set__keep_alive_task (Attr None))
  | None => mret tt
  end ;;
  t ← gets (λ st, transport (self st));
  match t with
  | Some tr =>
      i ← gets (λ st, self_id (self st));
      log SESSION DEBUG (msg_close i error) ;;
      on_loop (emit (ETransportClose tr)) ;;
      upd (set_transport None)
  | None => mret tt
  end.

Definition on_invalid_packet : M SS unit :=
  i ← gets (λ st, self_id (self st));
  log SESSION WARNING (msg_invalid_packet i) ;;
  close INVALID_MESSAGE.

Definition on_established : M SS unit :=
  i ← gets (λ st, self_id (self st));
  log SESSION DEBUG (msg_on_established i) ;;
  upd (set_access_level (value ESTABLISHED)).

Definition on_timeout : M SS unit :=
  i ← gets (λ st, self_id (self st));
  log SESSION DEBUG (msg_timed_out i) ;;
  close SESSION_DIED.

(** One turn of the [while True] loop of [_ensure_alive], up to its next
    suspension: [None] when the loop is left by [break], [Some d] when the
    coroutine suspends in [asyncio.sleep(d)]. *)
Definition _ensure_alive_turn : M SS (option Z) :=
  a ← gets (λ st, alive (self st));
  if negb a then on_timeout ;; mret None
  else d ← gets (λ st, ensure_alive_interval (self st)); mret (Some d).

End SessionBase.

(** ** class DMLSessionBase(SessionBase) *)

(** A decoded message; only its kind is read by this layer. *)
Record Message := { handler : string; payload : list Z }.

(** A handler receives the session (the receiver of the computation) and
    the message. *)
Definition Handler : Type := Message → M SS unit.

(** The decorator [msghandler(name)] applied to [f]. *)
Definition msghandler (name : string) (f : Handler)
    (handlers : gmap string Handler) : gmap string Handler :=
  <[name := f]> handlers.

Module DMLSessionBase.

Definition on_message (handlers : gmap string Handler)
    (message : Message) : M SS unit :=
  i ← gets (λ st, self_id (self st));
  log SESSION DEBUG (msg_on_message i (handler message)) ;;
  match handlers !! handler message with
  | Some handler_func => handler_func message
  | None => log SESSION WARNING (msg_no_handler i (handler message))
  end.

Definition on_invalid_message : M SS unit :=
  i ← gets (λ st, self_id (self st));
  log SESSION WARNING (msg_invalid_message i) ;;
  SessionBase.close INVALID_MESSAGE.

End DMLSessionBase.

(** ** The native session classes *)

Module CSession.

(** Modelled from the spec: the constructors of the native classes of
    [ki.protocol.net] ([ServerSession], [ClientSession] and their DML
    variants) are not part of the sources.  They receive the identifier;
    by the spec the access level of a freshly created session is [NEW].
    The spec leaves the initial value of [alive] to the protocol engine, so
    the constructor keeps what the object was created with. *)
Definition __init__ (id : Z) : M SS unit :=
  upd (set_self_id id) ;;
  upd (set_access_level (value NEW)).

(** Modelled from the spec: [send_keep_alive] and [on_connected] belong to
    the native classes; each is recorded in the trace as one call. *)
Definition send_keep_alive (arg : option Z) : M SS unit :=
  r ← gets (λ st, this (self st));
  on_loop (emit (ESendKeepAlive r arg)).

Definition on_connected : M SS unit :=
  r ← gets (λ st, this (self st));
  on_loop (emit (EOnConnected r)).

End CSession.

(** ** class ServerSessionBase(SessionBase) *)

Module ServerSessionBase.

Definition __init__ (transport : Transport)
    (keep_alive_interval ensure_alive_interval : option Z) : M SS unit :=
  SessionBase.__init__ transport
    (Some (default 10%Z ensure_alive_interval)) ;;
  upd (set_keep_alive_interval (default 60%Z keep_alive_interval)) ;;
  upd (set__keep_alive_task (Attr None)).

(** One turn of [_keep_alive]; [startup_timedelta] is the value of the
    server's property when the turn runs. *)
Definition _keep_alive_turn (startup_timedelta : Z) : M SS (option Z) :=
  CSession.send_keep_alive (Some startup_timedelta) ;;
  d ← gets (λ st, keep_alive_interval (self st));
  mret (Some d).

Definition on_established : M SS unit :=
  SessionBase.on_established ;;
  r ← gets (λ st, this (self st));
  h ← spawn (_keep_alive r);
  upd (set__keep_alive_task (Attr (Some h))).

End ServerSessionBase.

(** ** class ServerSession(ServerSessionBase, CServerSession) *)

Module ServerSession.

Definition __init__ (transport : Transport) (id : Z)
    (keep_alive_interval ensure_alive_interval : option Z) : M SS unit :=
  ServerSessionBase.__init__ transport
    (Some (default 60%Z keep_alive_interval))
    (Some (default 10%Z ensure_alive_interval)) ;;
  CSession.__init__ id.

End ServerSession.

(** ** class ServerDMLSession(DMLSessionBase, ServerSessionBase, CServerDMLSession) *)

Module ServerDMLSession.

(** [DMLSessionBase] defines no [__init__]: the first call resolves to
    [SessionBase.__init__].  In [ServerSessionBase.__init__], [super()]
    is again [SessionBase], the class after [ServerSessionBase] in the
    method resolution order of [ServerDMLSession]. *)
Definition __init__ (transport : Transport) (id : Z)
    (keep_alive_interval ensure_alive_interval : option Z) : M SS unit :=
  SessionBase.__init__ transport
    (Some (default 10%Z ensure_alive_interval)) ;;
  ServerSessionBase.__init__ transport
    (Some (default 60%Z keep_alive_interval))
    (Some (default 10%Z ensure_alive_interval)) ;;
  CSession.__init__ id.

End ServerDMLSession.

(** ** class ClientSessionBase(SessionBase) *)

Module ClientSessionBase.

Definition __init__ (transport : Transport)
    (keep_alive_interval ensure_alive_interval : option Z) : M SS unit :=
  SessionBase.__init__ transport
    (Some (default 10%Z ensure_alive_interval)) ;;
  upd (set_keep_alive_interval (default 10%Z keep_alive_interval)) ;;
  upd (set__keep_alive_task (Attr None)).

(** One turn of [_keep_alive]: send, then sleep. *)
Definition _keep_alive_turn : M SS (option Z) :=
  CSession.send_keep_alive None ;;
  d ← gets (λ st, keep_alive_interval (self st));
  mret (Some d).

Definition on_established : M SS unit :=
  SessionBase.on_established ;;
  r ← gets (λ st, this (self st));
  h ← spawn (_keep_alive r);
  upd (set__keep_alive_task (Attr (Some h))).

End ClientSessionBase.

(** ** class ClientSession(ClientSessionBase, CClientSession) *)

Module ClientSession.

Definition __init__ (transport : Transport) (id : Z)
    (keep_alive_interval ensure_alive_interval : option Z) : M SS unit :=
  ClientSessionBase.__init__ transport
    (Some (default 60%Z keep_alive_interval))
    (Some (default 10%Z ensure_alive_interval)) ;;
  CSession.__init__ id.

End ClientSession.

(** ** class ClientDMLSession(DMLSessionBase, ClientSessionBase, CClientDMLSession) *)

Module ClientDMLSession.

Definition __init__ (transport : Transport) (id : Z)
    (keep_alive_interval ensure_alive_interval : option Z) : M SS unit :=
  SessionBase.__init__ transport
    (Some (default 10%Z ensure_alive_interval)) ;;
  ClientSessionBase.__init__ transport
    (Some (default 60%Z keep_alive_interval))
    (Some (default 10%Z ensure_alive_interval)) ;;
  CSession.__init__ id.

End ClientDMLSession.

(** ** Method resolution *)

(** [SESSION_CLS(endpoint, transport, id, ...)] on a fresh object. *)
Definition construct (c : SessionClass) (transport : Transport) (id : Z)
    (keep_alive_interval ensure_alive_interval : option Z) : M SS unit :=
  match c with
  | ServerSession_cls =>
      ServerSession.__init__ transport id keep_alive_interval ensure_alive_interval
  | ServerDMLSession_cls =>
      ServerDMLSession.__init__ transport id keep_alive_interval ensure_alive_interval
  | ClientSession_cls =>
      ClientSession.__init__ transport id keep_alive_interval ensure_alive_interval
  | ClientDMLSession_cls =>
      ClientDMLSession.__init__ transport id keep_alive_interval ensure_alive_interval
  end.

(** [self.on_established()] on an object of any of the four classes. *)
Definition on_established : M SS unit :=
  c ← gets (λ st, class (self st));
  if is_server c then ServerSessionBase.on_established
  else ClientSessionBase.on_established.

(** ** Running a coroutine against the logical clock *)

Inductive Outcome :=
  | Returned (t : Z)    (* the coroutine returned at time [t] *)
  | Suspended (t : Z)   (* asleep until [t], which is past the horizon *)
  | OutOfFuel.

(** [drive fuel turn now horizon] runs a [while True] coroutine whose loop
    body is [turn], first resumed at [now], for as long as its wake-up
    times are within [horizon]. *)
Fixpoint drive (fuel : nat) (turn : Z → M SS (option Z))
    (now horizon : Z) : M SS Outcome :=
  match fuel with
  | O => mret OutOfFuel
  | S fuel' =>
      r ← turn now;
      match r with
      | None => mret (Returned now)
      | Some d =>
          if decide (now + d ≤ horizon)%Z
          then drive fuel' turn (now + d)%Z horizon
          else mret (Suspended (now + d)%Z)
      end
  end.

(** The events of a trace that are keep-alive sends of session [r]. *)
Definition is_send (r : ref) (e : Event) : bool :=
  match e with
  | ESendKeepAlive r' _ => bool_decide (r' = r)
  | _ => false
  end.

Definition sends (r : ref) (tr : list Event) : nat :=
  length (filter (λ e, is_send r e = true) tr).

(** ** ki.util.IDAllocator *)

Record IDAllocator := { min_id : Z; max_id : Z; allocated : gset Z }.

Module IDAllocator.

(** Modelled from the spec: [IDAllocator] is imported from [ki.util], which
    is not part of the sources.  By the spec it is a bounded pool over
    [[min, max]]; [allocate()] returns the smallest free identifier and
    fails with [AllocationError] when every identifier of the range is
    allocated; [free(id)] returns [id] to the pool and fails loudly on an
    identifier that is not allocated. *)
Definition __init__ (min max : Z) : IDAllocator :=
  {| min_id := min; max_id := max; allocated := ∅ |}.

Fixpoint first_free (al : gset Z) (i : Z) (n : nat) : option Z :=
  match n with
  | O => None
  | S n' => if decide (i ∈ al) then first_free al (i + 1)%Z n' else Some i
  end.

Definition allocate (a : IDAllocator) : option (Z * IDAllocator) :=
  match first_free (allocated a) (min_id a)
          (Z.to_nat (max_id a - min_id a + 1)) with
  | Some i =>
      Some (i, {| min_id := min_id a; max_id := max_id a;
                  allocated := {[i]} ∪ allocated a |})
  | None => None
  end.

Definition free (i : Z) (a : IDAllocator) : option IDAllocator :=
  if decide (i ∈ allocated a)
  then Some {| min_id := min_id a; max_id := max_id a;
               allocated := allocated a ∖ {[i]} |}
  else None.

End IDAllocator.

(** ** The endpoints and the world *)

(** [Server] and [DMLServer]: [SESSION_CLS] tells them apart.  The message
    manager of the DML endpoints is opaque to this layer and left out. *)
Record Server := {
  port : Z;
  startup_timestamp : Z;
  session_id_allocator : IDAllocator;
  sessions : gmap Z ref;
  SESSION_CLS : SessionClass;
}.

Record Client := {
  c_host : string;
  c_port : Z;
  c_session : option ref;
  c_SESSION_CLS : SessionClass;
}.

(** The store of session objects, the event loop, and the two endpoints.
    [engine_alive] is the value of [alive] the protocol engine gives to a
    session it has just created. *)
Record World := {
  heap : gmap ref Session;
  next_ref : ref;
  wloop : Loop;
  server : Server;
  client : Client;
  engine_alive : bool;
}.

Definition set_heap (v : gmap ref Session) (w : World) : World :=
  {| heap := v; next_ref := next_ref w; wloop := wloop w;
     server := server w; client := client w; engine_alive := engine_alive w |}.

Definition set_next_ref (v : ref) (w : World) : World :=
  {| heap := heap w; next_ref := v; wloop := wloop w;
     server := server w; client := client w; engine_alive := engine_alive w |}.

Definition set_wloop (v : Loop) (w : World) : World :=
  {| heap := heap w; next_ref := next_ref w; wloop := v;
     server := server w; client := client w; engine_alive := engine_alive w |}.

Definition set_server (v : Server) (w : World) : World :=
  {| heap := heap w; next_ref := next_ref w; wloop := wloop w;
     server := v; client := client w; engine_alive := engine_alive w |}.

Definition set_client (v : Client) (w : World) : World :=
  {| heap := heap w; next_ref := next_ref w; wloop := wloop w;
     server := server w; client := v; engine_alive := engine_alive w |}.

Definition set_session_id_allocator (v : IDAllocator) (s : Server) : Server :=
  {| port := port s; startup_timestamp := startup_timestamp s;
     session_id_allocator := v; sessions := sessions s;
     SESSION_CLS := SESSION_CLS s |}.

Definition set_sessions (v : gmap Z ref) (s : Server) : Server :=
  {| port := port s; startup_timestamp := startup_timestamp s;
     session_id_allocator := session_id_allocator s; sessions := v;
     SESSION_CLS := SESSION_CLS s |}.

Definition set_c_session (v : option ref) (c : Client) : Client :=
  {| c_host := c_host c; c_port := c_port c; c_session := v;
     c_SESSION_CLS := c_SESSION_CLS c |}.

Definition wlog (lg : Logger) (lv : Level) (m : Msg) : M World unit :=
  modify (λ w, set_wloop (emit (ELog lg lv m) (wloop w)) w).

(** Calls a method on the session behind [r]: the method runs on the
    stored object and the loop, and its effects on both are written back,
    also when it raises. *)
Definition call {A} (r : ref) (m : M SS A) : M World A := λ w,
  match heap w !! r with
  | None => Raise ReferenceError w
  | Some s =>
      match m {| self := s; loop := wloop w |} with
      | Ok a st => Ok a (set_wloop (loop st) (set_heap (<[r := self st]> (heap w)) w))
      | Raise e st =>
          Raise e (set_wloop (loop st) (set_heap (<[r := self st]> (heap w)) w))
      end
  end.

(** Object creation: a fresh reference holding a blank object. *)
Definition new (c : SessionClass) : M World ref := λ w,
  let r := next_ref w in
  Ok r (set_next_ref (S r)
          (set_heap (<[r := blank r c (engine_alive w)]> (heap w)) w)).

Module Server.

Definition MIN_SESSION_ID : Z := 1.
Definition MAX_SESSION_ID : Z := 0xFFFF.

(** [Server(port)] and, with [ServerDMLSession_cls], [DMLServer(port)];
    [now] is the reading of [time.time()]. *)
Definition __init__ (cls : SessionClass) (port now : Z) : Server :=
  {| port := port; startup_timestamp := now;
     session_id_allocator :=
       IDAllocator.__init__ MIN_SESSION_ID MAX_SESSION_ID;
     sessions := ∅;
     SESSION_CLS := cls |}.

(** The property [startup_timedelta], in milliseconds. *)
Definition startup_timedelta (now : Z) (s : Server) : Z :=
  ((now - startup_timestamp s) * 1000)%Z.

(** [self.session_id_allocator.allocate()]. *)
Definition allocate : M World Z := λ w,
  match IDAllocator.allocate (session_id_allocator (server w)) with
  | Some (i, a) => Ok i (set_server (set_session_id_allocator a (server w)) w)
  | None => Raise AllocationError w
  end.

(** [self.session_id_allocator.free(id)]. *)
Definition free (i : Z) : M World unit := λ w,
  match IDAllocator.free i (session_id_allocator (server w)) with
  | Some a => Ok tt (set_server (set_session_id_allocator a (server w)) w)
  | None => Raise FreeError w
  end.

(** [create_session(self, transport)], of [Server] and of [DMLServer]:
    the two differ in [SESSION_CLS] and in the manager handed on. *)
Definition create_session (transport : Transport) : M World ref :=
  session_id ← allocate;
  cls ← gets (λ w, SESSION_CLS (server w));
  session ← new cls;
  call session (construct cls transport session_id None None) ;;
  modify (λ w, set_server
                 (set_sessions (<[session_id := session]> (sessions (server w)))
                    (server w)) w) ;;
  mret session.

End Server.

Module Client.

Definition __init__ (cls : SessionClass) (host : string) (port : Z) : Client :=
  {| c_host := host; c_port := port; c_session := None;
     c_SESSION_CLS := cls |}.

(** [create_session(self, transport)], of [Client] and of [DMLClient]. *)
Definition create_session (transport : Transport) : M World ref :=
  cls ← gets (λ w, c_SESSION_CLS (client w));
  session ← new cls;
  call session (construct cls transport 0%Z None None) ;;
  modify (λ w, set_client (set_c_session (Some session) (client w)) w) ;;
  mret session.

End Client.

(** ** class ServerProtocol(ProtocolBase) *)

(** The protocol object of one connection: its [session] and whether it
    still refers to its server. *)
Record ServerProtocol := { p_session : option ref; p_server : bool }.

(** What the transport tells about the peer: [get_extra_info('peername')]
    of a TCP transport over IPv4, a pair of host and port. *)
Record Peer := { peer_transport : Transport; peer_host : string; peer_port : Z }.

Module ProtocolBase.

Definition connection_made (t : Peer) : M World unit :=
  wlog PROTOCOL DEBUG (msg_connection_made (peer_host t) (peer_port t)).

Definition connection_lost : M World unit :=
  wlog PROTOCOL DEBUG msg_connection_lost.

End ProtocolBase.

Module ServerProtocol.

Definition __init__ : ServerProtocol :=
  {| p_session := None; p_server := true |}.

(** The methods return the protocol object as they leave it. *)
Definition connection_made (t : Peer) (p : ServerProtocol)
    : M World ServerProtocol :=
  ProtocolBase.connection_made t ;;
  try_except
    (if p_server p then Server.create_session (peer_transport t)
     else raise AttributeError)
    AllocationError
    (wlog PROTOCOL WARNING msg_alloc_failed ;;
     wlog PROTOCOL WARNING msg_refusing ;;
     modify (λ w, set_wloop (emit (ETransportClose (peer_transport t)) (wloop w)) w) ;;
     mret p)
    (λ session,
       call session CSession.on_connected ;;
       mret {| p_session := Some session; p_server := p_server p |}).

Definition connection_lost (p : ServerProtocol) : M World ServerProtocol :=
  ProtocolBase.connection_lost ;;
  match p_session p with
  | Some session =>
      (if p_server p then mret tt else raise AttributeError) ;;
      i ← call session (gets (λ st, self_id (self st)));
      Server.free i ;;
      call session (SessionBase.close SESSION_DIED) ;;
      mret {| p_session := None; p_server := false |}
  | None => mret {| p_session := p_session p; p_server := false |}
  end.

End ServerProtocol.

(** ** class ClientProtocol(ProtocolBase) *)

(** The protocol object of a client connection: its [session] and whether
    it still refers to its client. *)
Record ClientProtocol := { cp_session : option ref; cp_client : bool }.

Module ClientProtocol.

Definition __init__ : ClientProtocol :=
  {| cp_session := None; cp_client := true |}.

Definition connection_made (t : Peer) (p : ClientProtocol)
    : M World ClientProtocol :=
  ProtocolBase.connection_made t ;;
  session ← (if cp_client p then Client.create_session (peer_transport t)
             else raise AttributeError);
  call session CSession.on_connected ;;
  mret {| cp_session := Some session; cp_client := cp_client p |}.

Definition connection_lost (p : ClientProtocol) : M World ClientProtocol :=
  ProtocolBase.connection_lost ;;
  match cp_session p with
  | Some session =>
      call session (SessionBase.close SESSION_DIED) ;;
      mret {| cp_session := None; cp_client := false |}
  | None => mret {| cp_session := cp_session p; cp_client := false |}
  end.

End ClientProtocol.

(** ** Bytes in and out *)

(** The effects of the two methods that carry bytes, which the trace has
    no event for: a write on a transport, and the two debug records whose
    text shows the bytes. *)
Inductive Output :=
  | OWrite (t : Transport) (data : list Byte.byte)   (* transport.write(data) *)
  | OLogSend (id : Z) (data : list Byte.byte) (size : Z)
  | OLogReceived (data : list Byte.byte) (size : nat).

(** A state together with the outputs so far, oldest first. *)
Record Wired (St : Type) := { under : St; wire : list Output }.
Arguments under {St} _.
Arguments wire {St} _.

Definition lift {St A} (m : M St A) : M (Wired St) A := λ st,
  match m (under st) with
  | Ok a u => Ok a {| under := u; wire := wire st |}
  | Raise e u => Raise e {| under := u; wire := wire st |}
  end.

Definition output {St} (o : Output) : M (Wired St) unit :=
  modify (λ st, {| under := under st; wire := wire st ++ [o] |}).

Module Packets.

(** [SessionBase.send_packet_data(self, data, size)]. *)
Definition send_packet_data (data : list Byte.byte) (size : Z)
    : M (Wired SS) unit :=
  i ← gets (λ st, self_id (self (under st)));
  output (OLogSend i data size) ;;
  t ← gets (λ st, transport (self (under st)));
  match t with
  | Some tr => output (OWrite tr data)
  | None => mret tt
  end.

(** [ProtocolBase.data_received(self, data)]; [session] is [self.session]
    and [process_data] the native method of the session, which is not part
    of the sources. *)
Definition data_received (process_data : list Byte.byte → nat → M SS unit)
    (data : list Byte.byte) (session : option ref) : M (Wired World) unit :=
  let size := length data in
  output (OLogReceived data size) ;;
  match session with
  | Some r => lift (call r (process_data data size))
  | None => mret tt
  end.

End Packets.

(** ** class DMLClient(Client) *)

(** A call that Python rejects while binding the positional arguments to
    the parameters of [callee]. *)
Inductive CallError := TypeError (callee : string).

Module DMLClient.

(** [Client.__init__(self, host, port)], called with the positional
    arguments [args]: the bound [(host, port)]. *)
Definition Client__init__ {A} (args : list A) : CallError + A * A :=
  match args with
  | [host; port] => inr (host, port)
  | _ => inl (TypeError "Client.__init__")
  end.

(** [DMLClient.__init__(self, port)], called with the positional arguments
    [args]; its first statement is [super().__init__(port)]. *)
Definition __init__ {A} (args : list A) : CallError + A * A :=
  match args with
  | [port] => Client__init__ [port]
  | _ => inl (TypeError "DMLClient.__init__")
  end.

End DMLClient.

(** ** The peer name of a transport *)

(** What [transport.get_extra_info('peername')] gives: the address of the
    peer as the socket family has it, or [None]. *)
Inductive Peername :=
  | peername_inet (host : string) (port : Z)                     (* (host, port) *)
  | peername_inet6 (host : string) (port flowinfo scope_id : Z)  (* a 4-tuple *)
  | peername_unix (path : string)                                (* a string *)
  | peername_none.                                               (* None *)

(** ['Connection made: %r, %d' % peername], the argument of the log call
    of [ProtocolBase.connection_made].  The format has two conversions: the
    operand must be a tuple of two values, or the operator raises
    [TypeError].  A pair of host and port is the [Peer] the methods above
    work on. *)
Definition peer_of (transport : Transport) (peername : Peername)
    : CallError + Peer :=
  match peername with
  | peername_inet host port =>
      inr {| peer_transport := transport; peer_host := host; peer_port := port |}
  | _ => inl (TypeError "'Connection made: %r, %d' % peername")
  end.

Module ClientConnection.

(** [ClientProtocol.connection_made(self, transport)] on a transport with
    any peer name.  The log call comes first: when formatting its argument
    raises, the method is left with that exception ([inl]) before it has
    done anything. *)
Definition connection_made (transport : Transport) (peername : Peername)
    (p : ClientProtocol) : M World (CallError + ClientProtocol) :=
  match peer_of transport peername with
  | inl e => mret (inl e)
  | inr t => p' ← ClientProtocol.connection_made t p; mret (inr p')
  end.

End ClientConnection.

(** * Vocabulary of the properties *)

(** ** Closed forms of the methods *)

(** The session once [close] has run. *)
Definition closed (s : Session) : Session :=
  set_transport None
    (set__keep_alive_task (Attr None) (set__ensure_alive_task None s)).

Definition cancels (o : option handle) (l : Loop) : Loop :=
  match o with Some h => cancel h l | None => l end.

Definition release (e : SessionCloseErrorCode) (s : Session) (l : Loop) : Loop :=
  match transport s with
  | Some tr =>
      emit (ETransportClose tr) (emit (ELog SESSION DEBUG (msg_close (self_id s) e)) l)
  | None => l
  end.

Definition cancel_events (o : option handle) : list Event :=
  match o with Some h => [ECancel h] | None => [] end.

Definition release_events (e : SessionCloseErrorCode) (s : Session) : list Event :=
  match transport s with
  | Some tr => [ELog SESSION DEBUG (msg_close (self_id s) e); ETransportClose tr]
  | None => []
  end.

(** The events [close] adds to the trace, in the order it issues them. *)
Definition close_events (e : SessionCloseErrorCode) (s : Session)
    (k : option handle) : list Event :=
  cancel_events (_ensure_alive_task s) ++ cancel_events k ++ release_events e s.

(** [on_established], in closed form. *)
Definition established (s : Session) (l : Loop) : SS :=
  {| self := set__keep_alive_task (Attr (Some (length (tasks l))))
               (set_access_level (value ESTABLISHED) s);
     loop := {| tasks := tasks l ++ [{| coro := _keep_alive (this s);
                                        cancelled := false |}];
                trace := trace l
                  ++ [ELog SESSION DEBUG (msg_on_established (self_id s));
                      EEnsureFuture (length (tasks l)) (_keep_alive (this s))] |} |}.

Definition wemit (e : Event) (w : World) : World :=
  set_wloop (emit e (wloop w)) w.

(** The session [SESSION_CLS(self, transport, id)] builds on a blank
    object [r], with the loop it leaves. *)
Definition built (c : SessionClass) (r : ref) (alive0 : bool) (l : Loop)
    (t : Transport) (id : Z) : SS :=
  state_of (construct c t id None None {| self := blank r c alive0; loop := l |}).

(** The world [create_session] leaves when the allocator hands out [i]. *)
Definition created (t : Transport) (i : Z) (a : IDAllocator) (w : World) : World :=
  let r := next_ref w in
  let st := built (SESSION_CLS (server w)) r (engine_alive w) (wloop w) t i in
  {| heap := <[r := self st]> (heap w);
     next_ref := S r;
     wloop := loop st;
     server := set_sessions (<[i := r]> (sessions (server w)))
                 (set_session_id_allocator a (server w));
     client := client w;
     engine_alive := engine_alive w |}.

(** [connection_made] when the pool is exhausted, in closed form. *)
Definition refused (t : Peer) (w : World) : World :=
  wemit (ETransportClose (peer_transport t))
    (wemit (ELog PROTOCOL WARNING msg_refusing)
       (wemit (ELog PROTOCOL WARNING msg_alloc_failed)
          (wemit (ELog PROTOCOL DEBUG
                    (msg_connection_made (peer_host t) (peer_port t))) w))).

(** [connection_made] when the allocator hands out [i]. *)
Definition connected (t : Peer) (i : Z) (a : IDAllocator) (w : World) : World :=
  wemit (EOnConnected (next_ref w))
    (created (peer_transport t) i a
       (wemit (ELog PROTOCOL DEBUG
                 (msg_connection_made (peer_host t) (peer_port t))) w)).

(** [connection_lost] on a protocol object that holds session [r], in
    closed form. *)
Definition torn_down (r : ref) (s : Session) (k : option handle)
    (a : IDAllocator) (w : World) : World :=
  {| heap := <[r := closed s]> (heap w);
     next_ref := next_ref w;
     wloop := release SESSION_DIED s
                (cancels k (cancels (_ensure_alive_task s)
                   (emit (ELog PROTOCOL DEBUG msg_connection_lost) (wloop w))));
     server := set_session_id_allocator a (server w);
     client := client w;
     engine_alive := engine_alive w |}.

(** ** The lifetime of a session *)

(** What can happen to a session once it is constructed: the calls the
    protocol engine, the protocol object and the event loop make on it. *)
Inductive Call :=
  | call_on_established
  | call_close (e : SessionCloseErrorCode)
  | call_on_timeout
  | call_on_invalid_packet
  | call_on_invalid_message
  | call_ensure_alive_turn                  (* a watchdog task is resumed *)
  | call_keep_alive_turn (timedelta : Z)    (* a keep-alive task is resumed *)
  | call_set_alive (b : bool).              (* the engine sets [alive] *)

Definition _keep_alive_turn (timedelta : Z) : M SS (option Z) :=
  c ← gets (λ st, class (self st));
  if is_server c then ServerSessionBase._keep_alive_turn timedelta
  else ClientSessionBase._keep_alive_turn.

Definition perform (c : Call) : M SS unit :=
  match c with
  | call_on_established => on_established
  | call_close e => SessionBase.close e
  | call_on_timeout => SessionBase.on_timeout
  | call_on_invalid_packet => SessionBase.on_invalid_packet
  | call_on_invalid_message => DMLSessionBase.on_invalid_message
  | call_ensure_alive_turn => SessionBase._ensure_alive_turn ;; mret tt
  | call_keep_alive_turn d => _keep_alive_turn d ;; mret tt
  | call_set_alive b => upd (set_alive b)
  end.

Fixpoint perform_all (cs : list Call) : M SS unit :=
  match cs with
  | [] => mret tt
  | c :: cs' => perform c ;; perform_all cs'
  end.

(** A session from its construction on a blank object through the calls
    [cs]. *)
Definition lifetime (c : SessionClass) (transport : Transport) (id : Z)
    (keep_alive_interval ensure_alive_interval : option Z)
    (cs : list Call) : M SS unit :=
  construct c transport id keep_alive_interval ensure_alive_interval ;;
  perform_all cs.

Definition is_open (st : SS) : Prop := is_Some (transport (self st)).

Definition watchdog_running (st : SS) : Prop :=
  ∃ h, _ensure_alive_task (self st) = Some h ∧
       runs (loop st) h (_ensure_alive (this (self st))).

Definition keep_alive_running (st : SS) : Prop :=
  ∃ h, _keep_alive_task (self st) = Attr (Some h) ∧
       runs (loop st) h (_keep_alive (this (self st))).

(** The invariant of the lifecycle. *)
Record Inv (st : SS) : Prop := {
  inv_attr : ∃ k, _keep_alive_task (self st) = Attr k;
  inv_watchdog : ∀ h, _ensure_alive_task (self st) = Some h →
                      runs (loop st) h (_ensure_alive (this (self st)));
  inv_keep_alive : ∀ h, _keep_alive_task (self st) = Attr (Some h) →
                        runs (loop st) h (_keep_alive (this (self st)));
  inv_open : is_Some (transport (self st)) ↔ is_Some (_ensure_alive_task (self st));
  inv_level : access_level (self st) = value NEW
              ∨ access_level (self st) = value ESTABLISHED;
  inv_held : ∀ h, _keep_alive_task (self st) = Attr (Some h) →
                  access_level (self st) = value ESTABLISHED;
  inv_established : is_Some (transport (self st)) →
                    access_level (self st) = value ESTABLISHED →
                    ∃ h, _keep_alive_task (self st) = Attr (Some h);
}.

(** The property as the specification words it: both tasks run exactly
    when the session is open and has reached [ESTABLISHED], and no task
    runs in the [NEW] state. *)
Definition tasks_follow_access_level (st : SS) : Prop :=
  (watchdog_running st ∧ keep_alive_running st
   ↔ is_open st ∧ (value ESTABLISHED ≤ access_level (self st))%Z) ∧
  (access_level (self st) = value NEW →
   ¬ watchdog_running st ∧ ¬ keep_alive_running st).

Definition is_dml (c : SessionClass) : bool :=
  match c with
  | ServerDMLSession_cls | ClientDMLSession_cls => true
  | _ => false
  end.

(** ** Sample objects and worlds *)

Definition loop0 : Loop := {| tasks := []; trace := [] |}.

(** A blank object of class [c] on an empty loop. *)
Definition fresh (c : SessionClass) (alive0 : bool) : SS :=
  {| self := blank 0 c alive0; loop := loop0 |}.

(** Sessions built on transport 7 with identifier 1 and the default
    intervals. *)
Definition server_session : SS :=
  Eval vm_compute in
    state_of (construct ServerSession_cls 7 1%Z None None
                (fresh ServerSession_cls true)).

Definition client_session : SS :=
  Eval vm_compute in
    state_of (construct ClientSession_cls 7 1%Z None None
                (fresh ClientSession_cls true)).

(** The same sessions once the handshake has completed. *)
Definition server_session_established : SS :=
  Eval vm_compute in state_of (on_established server_session).

Definition client_session_established : SS :=
  Eval vm_compute in state_of (on_established client_session).

(** A server session created while the engine reports it as not alive. *)
Definition dead_session : SS :=
  Eval vm_compute in
    state_of (construct ServerSession_cls 7 1%Z None None
                (fresh ServerSession_cls false)).

(** A client session with a keep-alive interval of 10, established. *)
Definition client_session_10 : SS :=
  Eval vm_compute in
    state_of (on_established
      (state_of (construct ClientSession_cls 7 0%Z (Some 10%Z) None
                   (fresh ClientSession_cls true)))).

Definition peer0 : Peer :=
  {| peer_transport := 7; peer_host := "10.0.0.2"; peer_port := 50000 |}.

(** A server on port 12000 started at time 0, with no connection yet. *)
Definition world0 : World :=
  {| heap := ∅; next_ref := 0; wloop := loop0;
     server := Server.__init__ ServerSession_cls 12000 0;
     client := Client.__init__ ClientSession_cls "localhost" 12000;
     engine_alive := true |}.

(** The same world once [peer0] has connected. *)
Definition world1 : World :=
  Eval vm_compute in
    state_of (ServerProtocol.connection_made peer0 ServerProtocol.__init__ world0).

(** A server whose identifier range is [[1, 2]], with both identifiers
    allocated. *)
Definition full_world : World :=
  set_server
    (set_session_id_allocator
       {| min_id := 1; max_id := 2; allocated := {[1%Z; 2%Z]} |}
       (server world0))
    world0.

(** ** Tactics *)

Ltac run_monad :=
  cbv [mbind M_bind mret M_ret gets modify raise upd on_loop log spawn read
       ensure_future try_except call new wlog state_of].

(** ** Steps of a lifetime *)

(** What the calls of a lifetime are made of: a log record, a keep-alive
    send, a [close], an [on_established], a change of [alive]. *)
Inductive Prim : SS → SS → Prop :=
  | prim_log s l lg lv m :
      Prim {| self := s; loop := l |}
           {| self := s; loop := emit (ELog lg lv m) l |}
  | prim_send s l arg :
      Prim {| self := s; loop := l |}
           {| self := s; loop := emit (ESendKeepAlive (this s) arg) l |}
  | prim_close s l k e :
      _keep_alive_task s = Attr k →
      Prim {| self := s; loop := l |}
           {| self := closed s;
              loop := release e s (cancels k (cancels (_ensure_alive_task s) l)) |}
  | prim_established s l :
      Prim {| self := s; loop := l |} (established s l)
  | prim_alive s l b :
      Prim {| self := s; loop := l |} {| self := set_alive b s; loop := l |}.

Global Instance Call_eq_dec : EqDecision Call.
Proof. solve_decision. Defined.

(** The number of [transport.close()] calls in a trace. *)
Definition is_transport_close (e : Event) : bool :=
  match e with ETransportClose _ => true | _ => false end.

Definition transport_closes (tr : list Event) : nat :=
  length (filter (λ e, is_transport_close e = true) tr).

(** How often the transport of a session must have been closed: once if
    the session is closed, never if it is open. *)
Definition expected_closes (s : Session) : nat :=
  match transport s with Some _ => 0 | None => 1 end.

(** The arguments of the keep-alive sends of session [r], oldest first. *)
Definition send_arg (r : ref) (e : Event) : option (option Z) :=
  match e with
  | ESendKeepAlive r' arg => if decide (r' = r) then Some arg else None
  | _ => None
  end.

Definition send_args (r : ref) (tr : list Event) : list (option Z) :=
  omap (send_arg r) tr.

(** The writes among the outputs, oldest first. *)
Definition written (out : list Output) : list (Transport * list Byte.byte) :=
  omap (λ o, match o with OWrite t d => Some (t, d) | _ => None end) out.



(** The first [n] wake-up times of a periodic task started at [now] with
    interval [T]. *)
Fixpoint ticks (n : nat) (now T : Z) : list Z :=
  match n with
  | O => []
  | S n' => now :: ticks n' (now + T)%Z T
  end.

(** The tasks of the loop from index [n] on are the session's own: the
    handles it holds are not below [n]. *)
Definition owns_from (n : nat) (st : SS) : Prop :=
  n ≤ length (tasks (loop st)) ∧
  (∀ h, _ensure_alive_task (self st) = Some h → n ≤ h) ∧
  (∀ h, _keep_alive_task (self st) = Attr (Some h) → n ≤ h).



Definition peer1 : Peer :=
  {| peer_transport := 8; peer_host := "10.0.0.3"; peer_port := 50001 |}.

(** [client_connected t w]: the world [ClientProtocol.connection_made]
    leaves. *)
Definition client_connected (t : Peer) (w : World) : World :=
  let w0 := wemit (ELog PROTOCOL DEBUG
                     (msg_connection_made (peer_host t) (peer_port t))) w in
  let r := next_ref w in
  let st := built (c_SESSION_CLS (client w)) r (engine_alive w) (wloop w0)
              (peer_transport t) 0 in
  {| heap := <[r := self st]> (heap w);
     next_ref := S r;
     wloop := emit (EOnConnected r) (loop st);
     server := server w;
     client := set_c_session (Some r) (client w);
     engine_alive := engine_alive w |}.

(** * Properties *)

(** ** The methods in closed form: [close] *)

Lemma close_run e s l k :
  _keep_alive_task s = Attr k →
  SessionBase.close e {| self := s; loop := l |}
  = Ok tt {| self := closed s;
             loop := release e s (cancels k (cancels (_ensure_alive_task s) l)) |}.
Proof.
  destruct s as [r c t eai w kai ka i al a]; simpl; intros ->.
  unfold SessionBase.close, closed, release, cancels; run_monad; simpl.
  destruct w, k, t; reflexivity.
Qed.

Lemma close_trace e s l k :
  trace (release e s (cancels k (cancels (_ensure_alive_task s) l)))
  = trace l ++ close_events e s k.
Proof.
  unfold release, cancels, close_events, cancel_events, release_events, emit, cancel.
  destruct (_ensure_alive_task s), k, (transport s); simpl;
    rewrite <- ?app_assoc; simpl; rewrite ?app_nil_r; reflexivity.
Qed.

Lemma closed_closed s : closed (closed s) = closed s.
Proof. reflexivity. Qed.

Lemma length_cancels o l : length (tasks (cancels o l)) = length (tasks l).
Proof. destruct o; simpl; [apply length_alter | reflexivity]. Qed.

Lemma tasks_release e s l : tasks (release e s l) = tasks l.
Proof. unfold release. destruct (transport s); reflexivity. Qed.

Lemma tasks_cancels_ne o l h :
  o ≠ Some h → tasks (cancels o l) !! h = tasks l !! h.
Proof.
  destruct o as [h'|]; simpl; [|reflexivity].
  intros Hne. apply list_lookup_alter_ne. congruence.
Qed.

Lemma tasks_cancels_eq l h :
  tasks (cancels (Some h) l) !! h = cancel_task <$> tasks l !! h.
Proof. simpl. apply list_lookup_alter_eq. Qed.

Lemma cancels_cancelled w k l h t :
  w = Some h ∨ k = Some h →
  tasks (cancels k (cancels w l)) !! h = Some t → cancelled t = true.
Proof.
  intros Hh Ht.
  destruct (decide (k = Some h)) as [->|Hk].
  - rewrite tasks_cancels_eq in Ht.
    destruct (tasks (cancels w l) !! h) as [t'|]; simplify_eq/=. reflexivity.
  - rewrite tasks_cancels_ne in Ht by assumption.
    destruct Hh as [->|?]; [|contradiction].
    rewrite tasks_cancels_eq in Ht.
    destruct (tasks l !! h) as [t'|]; simplify_eq/=. reflexivity.
Qed.

Lemma cancel_before_release (w k : option handle) (m : Msg) (tr : Transport)
    (h i j : nat) :
  (cancel_events w ++ cancel_events k
     ++ [ELog SESSION DEBUG m; ETransportClose tr]) !! i = Some (ECancel h) →
  (cancel_events w ++ cancel_events k
     ++ [ELog SESSION DEBUG m; ETransportClose tr]) !! j
    = Some (ETransportClose tr) →
  i < j.
Proof.
  destruct w, k; cbn;
    destruct i as [|[|[|[|i]]]]; cbn; try discriminate;
    destruct j as [|[|[|[|j]]]]; cbn; try discriminate; lia.
Qed.

(** ** Close *)

(** C3: calling [close] twice in a row, with any two reason codes, has the
    observable effects of calling it once: the first call returns, and the
    second call returns too and leaves the session, the task table and the
    trace exactly as the first call left them. *)
Theorem close_twice_is_close_once e1 e2 s l k :
  _keep_alive_task s = Attr k →
  ∃ st1,
    SessionBase.close e1 {| self := s; loop := l |} = Ok tt st1 ∧
    SessionBase.close e2 st1 = Ok tt st1 ∧
    _ensure_alive_task (self st1) = None ∧
    _keep_alive_task (self st1) = Attr None ∧
    transport (self st1) = None.
Proof.
  intros Hk. eexists. split; [apply (close_run e1 s l k Hk)|].
  split; [|done].
  rewrite (close_run e2 _ _ None) by reflexivity.
  reflexivity.
Qed.

Lemma close_twice_is_close_once_witness :
  _keep_alive_task (self (server_session_established)) = Attr (Some 1) ∧
  ∃ st1,
    SessionBase.close SESSION_DIED (server_session_established)
      = Ok tt st1 ∧
    SessionBase.close INVALID_MESSAGE st1 = Ok tt st1 ∧
    _ensure_alive_task (self st1) = None ∧
    _keep_alive_task (self st1) = Attr None ∧
    transport (self st1) = None.
Proof.
  split; [reflexivity|].
  apply (close_twice_is_close_once SESSION_DIED INVALID_MESSAGE
           (self (server_session_established))
           (loop (server_session_established)) (Some 1)).
  reflexivity.
Defined.

(** C4: on an open session [close(reason)] first cancels and clears the
    watchdog task reference, then cancels and clears the keep-alive task
    reference, and only then logs the closure with its reason, closes the
    transport and clears it; the tasks it held are cancelled in the loop,
    and every cancellation precedes the release of the transport. *)
Theorem close_cancels_tasks_then_releases_transport e s l k tr :
  _keep_alive_task s = Attr k →
  transport s = Some tr →
  ∃ st',
    SessionBase.close e {| self := s; loop := l |} = Ok tt st' ∧
    trace (loop st')
      = trace l ++ cancel_events (_ensure_alive_task s) ++ cancel_events k
          ++ [ELog SESSION DEBUG (msg_close (self_id s) e); ETransportClose tr] ∧
    _ensure_alive_task (self st') = None ∧
    _keep_alive_task (self st') = Attr None ∧
    transport (self st') = None ∧
    (∀ h t, _ensure_alive_task s = Some h ∨ k = Some h →
            tasks (loop st') !! h = Some t → cancelled t = true) ∧
    (∀ h i j,
       let added := drop (length (trace l)) (trace (loop st')) in
       added !! i = Some (ECancel h) →
       added !! j = Some (ETransportClose tr) → i < j).
Proof.
  intros Hk Ht. eexists. split; [apply (close_run e s l k Hk)|]. simpl.
  assert (Htr : trace (release e s (cancels k (cancels (_ensure_alive_task s) l)))
                = trace l ++ cancel_events (_ensure_alive_task s) ++ cancel_events k
                    ++ [ELog SESSION DEBUG (msg_close (self_id s) e);
                        ETransportClose tr]).
  { rewrite close_trace. unfold close_events, release_events. by rewrite Ht. }
  split; [exact Htr|]. do 3 (split; [reflexivity|]). split.
  - intros h t Hh. rewrite tasks_release. by apply cancels_cancelled.
  - intros h i j. rewrite Htr, drop_app_length. apply cancel_before_release.
Qed.

Lemma close_cancels_tasks_then_releases_transport_witness :
  let st := client_session_established in
  _keep_alive_task (self st) = Attr (Some 1) ∧
  transport (self st) = Some 7 ∧
  ∃ st',
    SessionBase.close SESSION_DIED st = Ok tt st' ∧
    trace (loop st')
      = trace (loop st) ++ cancel_events (_ensure_alive_task (self st))
          ++ cancel_events (Some 1)
          ++ [ELog SESSION DEBUG (msg_close (self_id (self st)) SESSION_DIED);
              ETransportClose 7] ∧
    _ensure_alive_task (self st') = None ∧
    _keep_alive_task (self st') = Attr None ∧
    transport (self st') = None ∧
    (∀ h t, _ensure_alive_task (self st) = Some h ∨ Some 1 = Some h →
            tasks (loop st') !! h = Some t → cancelled t = true) ∧
    (∀ h i j,
       let added := drop (length (trace (loop st))) (trace (loop st')) in
       added !! i = Some (ECancel h) →
       added !! j = Some (ETransportClose 7) → i < j).
Proof.
  intros st. split; [reflexivity|]. split; [reflexivity|].
  apply (close_cancels_tasks_then_releases_transport SESSION_DIED
           (self st) (loop st) (Some 1) 7); reflexivity.
Defined.

(** ** The invariant of the lifecycle *)

Lemma runs_app l h c ts ev :
  runs l h c → runs {| tasks := tasks l ++ ts; trace := ev |} h c.
Proof.
  unfold runs; simpl. intros H. rewrite lookup_app_l; [done|].
  by eapply lookup_lt_Some.
Qed.

Lemma runs_new l c ev :
  runs {| tasks := tasks l ++ [{| coro := c; cancelled := false |}]; trace := ev |}
       (length (tasks l)) c.
Proof. unfold runs; simpl. by apply list_lookup_middle. Qed.

Lemma Inv_emit e s l :
  Inv {| self := s; loop := l |} → Inv {| self := s; loop := emit e l |}.
Proof. intros [? ? ? ? ? ? ?]. by split. Qed.

Lemma Inv_closed s l l' :
  Inv {| self := s; loop := l |} → Inv {| self := closed s; loop := l' |}.
Proof.
  intros [? ? ? ? ? ? ?]. split; simpl in *; try done.
  by exists None.
Qed.

Lemma Inv_set_alive b s l :
  Inv {| self := s; loop := l |} → Inv {| self := set_alive b s; loop := l |}.
Proof. intros [? ? ? ? ? ? ?]. by split. Qed.

Lemma on_established_run s l :
  on_established {| self := s; loop := l |} = Ok tt (established s l).
Proof.
  unfold on_established, ServerSessionBase.on_established,
    ClientSessionBase.on_established, SessionBase.on_established, established.
  run_monad; simpl.
  destruct (is_server (class s)); unfold emit; simpl;
    rewrite <- app_assoc; reflexivity.
Qed.

Lemma Inv_established s l :
  Inv {| self := s; loop := l |} → Inv (established s l).
Proof.
  intros [? Hw ? ? ? ? ?]. split; simpl in *; try done.
  - by eexists.
  - intros h Hh. by apply runs_app, Hw.
  - intros h [= <-]. apply runs_new.
  - by right.
  - by eexists.
Qed.

Lemma on_timeout_run s l k :
  _keep_alive_task s = Attr k →
  SessionBase.on_timeout {| self := s; loop := l |}
  = Ok tt {| self := closed s;
             loop := release SESSION_DIED s
                       (cancels k (cancels (_ensure_alive_task s)
                          (emit (ELog SESSION DEBUG (msg_timed_out (self_id s))) l))) |}.
Proof.
  intros Hk. unfold SessionBase.on_timeout. run_monad; simpl.
  fold (SessionBase.close SESSION_DIED
          {| self := s;
             loop := emit (ELog SESSION DEBUG (msg_timed_out (self_id s))) l |}).
  by rewrite (close_run _ _ _ k).
Qed.

Lemma on_invalid_packet_run s l k :
  _keep_alive_task s = Attr k →
  SessionBase.on_invalid_packet {| self := s; loop := l |}
  = Ok tt {| self := closed s;
             loop := release INVALID_MESSAGE s
                       (cancels k (cancels (_ensure_alive_task s)
                          (emit (ELog SESSION WARNING (msg_invalid_packet (self_id s))) l))) |}.
Proof.
  intros Hk. unfold SessionBase.on_invalid_packet. run_monad; simpl.
  fold (SessionBase.close INVALID_MESSAGE
          {| self := s;
             loop := emit (ELog SESSION WARNING (msg_invalid_packet (self_id s))) l |}).
  by rewrite (close_run _ _ _ k).
Qed.

Lemma on_invalid_message_run s l k :
  _keep_alive_task s = Attr k →
  DMLSessionBase.on_invalid_message {| self := s; loop := l |}
  = Ok tt {| self := closed s;
             loop := release INVALID_MESSAGE s
                       (cancels k (cancels (_ensure_alive_task s)
                          (emit (ELog SESSION WARNING (msg_invalid_message (self_id s))) l))) |}.
Proof.
  intros Hk. unfold DMLSessionBase.on_invalid_message. run_monad; simpl.
  fold (SessionBase.close INVALID_MESSAGE
          {| self := s;
             loop := emit (ELog SESSION WARNING (msg_invalid_message (self_id s))) l |}).
  by rewrite (close_run _ _ _ k).
Qed.

(** One turn of the watchdog, in closed form. *)
Lemma _ensure_alive_turn_run s l k :
  _keep_alive_task s = Attr k →
  SessionBase._ensure_alive_turn {| self := s; loop := l |}
  = if alive s
    then Ok (Some (ensure_alive_interval s)) {| self := s; loop := l |}
    else Ok None
           {| self := closed s;
              loop := release SESSION_DIED s
                        (cancels k (cancels (_ensure_alive_task s)
                           (emit (ELog SESSION DEBUG (msg_timed_out (self_id s))) l))) |}.
Proof.
  intros Hk. unfold SessionBase._ensure_alive_turn.
  cbv [mbind M_bind gets]; simpl. destruct (alive s); simpl; [reflexivity|].
  by rewrite (on_timeout_run _ _ k).
Qed.

Lemma _keep_alive_turn_run d s l :
  ∃ arg,
    _keep_alive_turn d {| self := s; loop := l |}
    = Ok (Some (keep_alive_interval s))
         {| self := s; loop := emit (ESendKeepAlive (this s) arg) l |}.
Proof.
  unfold _keep_alive_turn, ServerSessionBase._keep_alive_turn,
    ClientSessionBase._keep_alive_turn, CSession.send_keep_alive.
  run_monad; simpl. destruct (is_server (class s)); eexists; reflexivity.
Qed.

Lemma perform_Inv c st :
  Inv st → ∃ st', perform c st = Ok tt st' ∧ Inv st'.
Proof.
  destruct st as [s l]. intros HI.
  destruct (inv_attr _ HI) as [k Hk]; simpl in Hk.
  destruct c; simpl.
  - rewrite on_established_run. eauto using Inv_established.
  - rewrite (close_run _ _ _ k Hk). eauto using Inv_closed.
  - rewrite (on_timeout_run _ _ k Hk). eauto using Inv_closed.
  - rewrite (on_invalid_packet_run _ _ k Hk). eauto using Inv_closed.
  - rewrite (on_invalid_message_run _ _ k Hk). eauto using Inv_closed.
  - cbv [mbind M_bind mret M_ret].
    rewrite (_ensure_alive_turn_run _ _ k Hk).
    destruct (alive s); eauto using Inv_closed.
  - cbv [mbind M_bind mret M_ret].
    destruct (_keep_alive_turn_run timedelta s l) as [arg ->].
    eauto using Inv_emit.
  - eexists; split; [reflexivity|]. by apply Inv_set_alive.
Qed.

Lemma perform_all_Inv cs st :
  Inv st → ∃ st', perform_all cs st = Ok tt st' ∧ Inv st'.
Proof.
  revert st. induction cs as [|c cs IH]; intros st HI; simpl.
  - by exists st.
  - destruct (perform_Inv c st HI) as (st1 & H1 & HI1).
    destruct (IH st1 HI1) as (st2 & H2 & HI2).
    exists st2. split; [|done].
    cbv [mbind M_bind]. by rewrite H1.
Qed.

Lemma construct_Inv c r alive0 l t id kai eai :
  ∃ st, construct c t id kai eai {| self := blank r c alive0; loop := l |} = Ok tt st
        ∧ Inv st
        ∧ access_level (self st) = value NEW
        ∧ this (self st) = r.
Proof.
  destruct c; (eexists; split; [reflexivity|]); simpl;
    (split; [|done]); split; simpl; try done; eauto;
    try (intros h [= <-]; unfold runs; simpl; by apply list_lookup_middle);
    try (intros _ [=]).
Qed.

Lemma lifetime_Inv c r alive0 l t id kai eai cs :
  ∃ st, lifetime c t id kai eai cs {| self := blank r c alive0; loop := l |} = Ok tt st
        ∧ Inv st.
Proof.
  destruct (construct_Inv c r alive0 l t id kai eai) as (st0 & H0 & HI0 & _).
  destruct (perform_all_Inv cs st0 HI0) as (st & H & HI).
  exists st. split; [|done].
  unfold lifetime. cbv [mbind M_bind]. by rewrite H0.
Qed.

(** ** The periodic tasks and the access level *)

(** C2, as stated, fails: a server session that has just been constructed
    is in the [NEW] state and its watchdog task is already running, because
    [SessionBase.__init__] schedules it. *)
Lemma watchdog_runs_in_NEW :
  lifetime ServerSession_cls 7 1%Z None None [] (fresh ServerSession_cls true)
    = Ok tt server_session ∧
  access_level (self server_session) = value NEW ∧
  watchdog_running server_session ∧
  ¬ tasks_follow_access_level server_session.
Proof.
  assert (HW : watchdog_running server_session) by (by exists 0).
  repeat split; try done.
  intros [_ Hnew]. destruct Hnew as [Hno _]; [reflexivity|]. by apply Hno.
Qed.

(** C2, amended: at every point of a session's lifetime, both periodic
    tasks run exactly when the session is open and has reached
    [ESTABLISHED]; the watchdog alone runs exactly when the session is open,
    so it already runs in the [NEW] state, where the keep-alive task does
    not. *)
Theorem tasks_over_lifetime c r alive0 l t id kai eai cs :
  ∃ st,
    lifetime c t id kai eai cs {| self := blank r c alive0; loop := l |} = Ok tt st ∧
    (watchdog_running st ∧ keep_alive_running st
     ↔ is_open st ∧ (value ESTABLISHED ≤ access_level (self st))%Z) ∧
    (watchdog_running st ↔ is_open st) ∧
    (access_level (self st) = value NEW → ¬ keep_alive_running st).
Proof.
  destruct (lifetime_Inv c r alive0 l t id kai eai cs) as (st & H & HI).
  exists st. split; [exact H|].
  destruct HI as [_ Hw Hk Hopen Hlevel Hheld Hest].
  assert (HWO : watchdog_running st ↔ is_open st).
  { unfold watchdog_running, is_open. split.
    - intros (h & Hh & _). apply Hopen. by exists h.
    - intros Ho. apply Hopen in Ho as [h Hh]. exists h. split; [done|]. by apply Hw. }
  split; [|split; [exact HWO|]].
  - split.
    + intros [HW (h & Hh & _)]. split; [by apply HWO|].
      rewrite (Hheld h Hh). done.
    + intros [Ho Hl]. split; [by apply HWO|].
      destruct Hest as [h Hh]; [exact Ho| |].
      * destruct Hlevel as [Hl0|Hl1]; [|exact Hl1].
        rewrite Hl0 in Hl. simpl in Hl. lia.
      * exists h. split; [done|]. by apply Hk.
  - intros Hnew (h & Hh & _). rewrite (Hheld h Hh) in Hnew. discriminate.
Qed.

(** ** Construction of the DML sessions *)

(** C10: constructing a [ServerDMLSession] or a [ClientDMLSession] runs
    [SessionBase.__init__] twice, so two watchdog tasks are scheduled; the
    session keeps the handle of the second only, and a later [close]
    cancels the second task and leaves the first one running. *)
Theorem dml_session_leaves_a_watchdog_running c r alive0 l t id kai eai e :
  is_dml c = true →
  let h := length (tasks l) in
  let watchdog b := {| coro := _ensure_alive r; cancelled := b |} in
  ∃ st st',
    construct c t id kai eai {| self := blank r c alive0; loop := l |} = Ok tt st ∧
    tasks (loop st) = tasks l ++ [watchdog false; watchdog false] ∧
    trace (loop st)
      = trace l ++ [EEnsureFuture h (_ensure_alive r);
                    EEnsureFuture (S h) (_ensure_alive r)] ∧
    _ensure_alive_task (self st) = Some (S h) ∧
    SessionBase.close e st = Ok tt st' ∧
    tasks (loop st') = tasks l ++ [watchdog false; watchdog true] ∧
    runs (loop st') h (_ensure_alive r) ∧
    _ensure_alive_task (self st') = None ∧
    ECancel h ∉ drop (length (trace (loop st))) (trace (loop st')).
Proof.
  intros Hc h watchdog. subst watchdog. cbv beta.
  set (wd := {| coro := _ensure_alive r; cancelled := false |}).
  assert (Hlen : length (tasks l ++ [wd]) = S h).
  { rewrite length_app. simpl. unfold h. lia. }
  assert (Halter : alter cancel_task (S h) ((tasks l ++ [wd]) ++ [wd])
                   = tasks l ++ [wd; cancel_task wd]).
  { rewrite <- Hlen, <- (Nat.add_0_r (length _)), alter_app_r.
    by rewrite <- app_assoc. }
  subst wd. unfold cancel_task in Halter. simpl in Halter.
  destruct c; try discriminate Hc.
  all: eexists; eexists; split; [reflexivity|]; cbn; rewrite !Hlen.
  all: split; [by rewrite <- app_assoc|].
  all: split; [by rewrite <- app_assoc|].
  all: split; [done|].
  all: split; [apply (close_run e _ _ None); reflexivity|].
  all: cbn [loop self tasks trace closed set_transport set__keep_alive_task
            set__ensure_alive_task _ensure_alive_task transport release
            cancels cancel emit].
  all: split; [exact Halter|].
  all: split;
    [unfold runs; etrans;
       [exact (f_equal (λ x : list Task, x !! h) Halter)|];
     by apply list_lookup_middle|].
  all: split; [reflexivity|].
  all: cbn;
       set (T := (trace l ++ [EEnsureFuture _ _]) ++ [EEnsureFuture _ _]);
       rewrite <- !app_assoc, drop_app_length; cbn.
  all: intros Hin;
       repeat (apply elem_of_cons in Hin as [Hin|Hin]; [simplify_eq; lia|]);
       by apply elem_of_nil in Hin.
Qed.

Lemma dml_session_leaves_a_watchdog_running_witness :
  is_dml ServerDMLSession_cls = true ∧
  let h := length (tasks loop0) in
  let watchdog b := {| coro := _ensure_alive 0; cancelled := b |} in
  ∃ st st',
    construct ServerDMLSession_cls 7 1%Z None None
      {| self := blank 0 ServerDMLSession_cls true; loop := loop0 |} = Ok tt st ∧
    tasks (loop st) = tasks loop0 ++ [watchdog false; watchdog false] ∧
    trace (loop st)
      = trace loop0 ++ [EEnsureFuture h (_ensure_alive 0);
                        EEnsureFuture (S h) (_ensure_alive 0)] ∧
    _ensure_alive_task (self st) = Some (S h) ∧
    SessionBase.close SESSION_DIED st = Ok tt st' ∧
    tasks (loop st') = tasks loop0 ++ [watchdog false; watchdog true] ∧
    runs (loop st') h (_ensure_alive 0) ∧
    _ensure_alive_task (self st') = None ∧
    ECancel h ∉ drop (length (trace (loop st))) (trace (loop st')).
Proof.
  split; [reflexivity|].
  exact (dml_session_leaves_a_watchdog_running ServerDMLSession_cls 0 true
           loop0 7 1%Z None None SESSION_DIED eq_refl).
Defined.

(** ** The watchdog *)

Lemma _ensure_alive_turn_reads_alive st :
  alive (self (state_of (SessionBase._ensure_alive_turn st))) = alive (self st).
Proof.
  destruct st as [[r c t eai w kai ka i al a] l].
  destruct a, ka as [|[k|]], w, t; reflexivity.
Qed.

(** C7: when [alive] is false, the first check of the watchdog, made as
    soon as the task starts and before any sleep, calls [on_timeout], and
    the session is closed with [SESSION_DIED]: the coroutine returns at the
    time it was started, hence within one watchdog interval, whatever the
    fuel and the horizon.  A turn of the watchdog never changes [alive]. *)
Theorem watchdog_closes_dead_session fuel t0 horizon s l k tr :
  alive s = false →
  transport s = Some tr →
  _keep_alive_task s = Attr k →
  (0 ≤ ensure_alive_interval s)%Z →
  (∃ t st',
     drive (S fuel) (λ _, SessionBase._ensure_alive_turn) t0 horizon
       {| self := s; loop := l |} = Ok (Returned t) st' ∧
     (t0 ≤ t ≤ t0 + ensure_alive_interval s)%Z ∧
     trace (loop st')
       = trace l ++ [ELog SESSION DEBUG (msg_timed_out (self_id s))]
           ++ cancel_events (_ensure_alive_task s) ++ cancel_events k
           ++ [ELog SESSION DEBUG (msg_close (self_id s) SESSION_DIED);
               ETransportClose tr] ∧
     transport (self st') = None ∧
     _ensure_alive_task (self st') = None ∧
     _keep_alive_task (self st') = Attr None ∧
     alive (self st') = alive s) ∧
  (∀ st, alive (self (state_of (SessionBase._ensure_alive_turn st)))
         = alive (self st)).
Proof.
  intros Ha Ht Hk Hi. split; [|apply _ensure_alive_turn_reads_alive].
  exists t0. eexists. split.
  - simpl. cbv [mbind M_bind mret M_ret].
    rewrite (_ensure_alive_turn_run s l k Hk), Ha. reflexivity.
  - split; [lia|]. split; [|done]. simpl.
    rewrite close_trace. unfold close_events, release_events, emit. simpl.
    rewrite Ht, <- app_assoc. reflexivity.
Qed.

Lemma watchdog_closes_dead_session_witness :
  alive (self dead_session) = false ∧
  transport (self dead_session) = Some 7 ∧
  _keep_alive_task (self dead_session) = Attr None ∧
  (0 ≤ ensure_alive_interval (self dead_session))%Z ∧
  ∃ t st',
    drive 1 (λ _, SessionBase._ensure_alive_turn) 0 100 dead_session
      = Ok (Returned t) st' ∧
    (0 ≤ t ≤ 0 + ensure_alive_interval (self dead_session))%Z ∧
    transport (self st') = None.
Proof.
  repeat (split; [done|]).
  destruct (watchdog_closes_dead_session 0 0%Z 100%Z (self dead_session)
              (loop dead_session) None 7)
    as [(t & st' & Hrun & Ht & _ & Hclosed & _) _]; [done..|].
  exists t, st'. repeat split; [exact Hrun|apply Ht..|exact Hclosed].
Defined.

(** ** The keep-alive task of a client session *)

Lemma sends_emit_send r arg l :
  sends r (trace (emit (ESendKeepAlive r arg) l)) = S (sends r (trace l)).
Proof.
  unfold sends, emit; simpl. rewrite filter_app, length_app.
  rewrite filter_cons_True by (simpl; by rewrite bool_decide_eq_true).
  simpl. lia.
Qed.

Lemma client_keep_alive_turn_run s l :
  ClientSessionBase._keep_alive_turn {| self := s; loop := l |}
  = Ok (Some (keep_alive_interval s))
       {| self := s; loop := emit (ESendKeepAlive (this s) None) l |}.
Proof. reflexivity. Qed.

Lemma drive_keep_alive s T horizon n :
  keep_alive_interval s = T → (0 < T)%Z →
  ∀ now l fuel,
    (now ≤ horizon)%Z →
    Z.to_nat ((horizon - now) / T) = n →
    n < fuel →
    ∃ l',
      drive fuel (λ _, ClientSessionBase._keep_alive_turn) now horizon
        {| self := s; loop := l |}
      = Ok (Suspended (now + (Z.of_nat n + 1) * T)%Z) {| self := s; loop := l' |} ∧
      sends (this s) (trace l') = sends (this s) (trace l) + n + 1 ∧
      tasks l' = tasks l.
Proof.
  intros HT Hpos. induction n as [|n IH]; intros now l fuel Hnow Hq Hfuel;
    (destruct fuel as [|fuel]; [lia|]); simpl; cbv [mbind M_bind mret M_ret];
    rewrite client_keep_alive_turn_run, HT.
  - assert ((horizon - now) / T = 0)%Z as Hq0.
    { pose proof (Z.div_pos (horizon - now) T). lia. }
    apply Z.div_small_iff in Hq0; [|lia].
    destruct (decide (now + T ≤ horizon)%Z); [lia|].
    eexists. split; [f_equal; f_equal; lia|].
    rewrite sends_emit_send. split; [lia|reflexivity].
  - assert (1 ≤ (horizon - now) / T)%Z as Hq1 by lia.
    assert (T ≤ horizon - now)%Z as Hle.
    { destruct (decide (T ≤ horizon - now)%Z); [done|].
      rewrite Z.div_small in Hq1 by lia. lia. }
    destruct (decide (now + T ≤ horizon)%Z); [|lia].
    destruct (IH (now + T)%Z (emit (ESendKeepAlive (this s) None) l) fuel)
      as (l' & Hrun & Hsends & Htasks); [lia| |lia|].
    { replace (horizon - (now + T))%Z with (horizon - now + (-1) * T)%Z by lia.
      rewrite Z.div_add by lia. lia. }
    exists l'. split; [|split].
    + rewrite Hrun. f_equal. f_equal. lia.
    + rewrite Hsends, sends_emit_send. lia.
    + rewrite Htasks. reflexivity.
Qed.

(** C8, as stated, fails: with [T = 10], over a duration [D = 25] the
    keep-alive task sends at times 0, 10 and 20, three payloads and not
    [⌊25/10⌋ = 2]; the task is then asleep until 30. *)
Lemma keep_alive_sends_three_times_in_25 :
  keep_alive_interval (self client_session_10) = 10%Z ∧
  ∃ st',
    drive 10 (λ _, ClientSessionBase._keep_alive_turn) 0 25 client_session_10
      = Ok (Suspended 30) st' ∧
    sends 0 (trace (loop client_session_10)) = 0 ∧
    sends 0 (trace (loop st')) = 3 ∧
    sends 0 (trace (loop st')) ≠ Z.to_nat (25 / 10).
Proof.
  split; [reflexivity|]. eexists. split; [vm_compute; reflexivity|].
  vm_compute. repeat split; lia.
Qed.

(** C8, amended: a client keep-alive task with interval [T > 0] that is
    started at [t0] and runs undisturbed sends its first payload at once
    and one more every [T] units, whatever the state of the session: over
    a duration [D] it sends exactly [⌊D/T⌋ + 1] payloads, and is then
    asleep until [t0 + (⌊D/T⌋ + 1) T]. *)
Theorem keep_alive_sends_every_interval s l T D t0 fuel :
  keep_alive_interval s = T →
  (0 < T)%Z →
  (0 ≤ D)%Z →
  Z.to_nat (D / T) < fuel →
  ∃ st',
    drive fuel (λ _, ClientSessionBase._keep_alive_turn) t0 (t0 + D)
      {| self := s; loop := l |}
    = Ok (Suspended (t0 + (D / T + 1) * T)%Z) st' ∧
    sends (this s) (trace (loop st'))
    = sends (this s) (trace l) + Z.to_nat (D / T) + 1 ∧
    self st' = s ∧
    tasks (loop st') = tasks l.
Proof.
  intros HT Hpos HD Hfuel.
  destruct (drive_keep_alive s T (t0 + D)%Z (Z.to_nat (D / T)) HT Hpos
              t0 l fuel) as (l' & Hrun & Hsends & Htasks); [lia| |done|].
  { f_equal. f_equal. lia. }
  exists {| self := s; loop := l' |}.
  split; [|split; [exact Hsends|split; [reflexivity|exact Htasks]]].
  rewrite Hrun. f_equal. f_equal.
  pose proof (Z.div_pos D T). rewrite Z2Nat.id by lia. reflexivity.
Qed.

Lemma keep_alive_sends_every_interval_witness :
  keep_alive_interval (self client_session_10) = 10%Z ∧
  (0 < 10)%Z ∧ (0 ≤ 25)%Z ∧ Z.to_nat (25 / 10) < 10 ∧
  ∃ st',
    drive 10 (λ _, ClientSessionBase._keep_alive_turn) 0 (0 + 25)
      client_session_10
    = Ok (Suspended (0 + (25 / 10 + 1) * 10)%Z) st' ∧
    sends (this (self client_session_10)) (trace (loop st'))
    = sends (this (self client_session_10)) (trace (loop client_session_10))
      + Z.to_nat (25 / 10) + 1 ∧
    self st' = self client_session_10 ∧
    tasks (loop st') = tasks (loop client_session_10).
Proof.
  split; [reflexivity|]. split; [lia|]. split; [lia|].
  split; [vm_compute; lia|].
  apply (keep_alive_sends_every_interval (self client_session_10)
           (loop client_session_10) 10 25 0 10); [reflexivity|lia|lia|].
  vm_compute; lia.
Defined.

(** ** Dispatch *)

(** C6: [on_message] logs the message kind; when the dispatch table binds
    the kind, it continues as exactly that handler, called with the session
    and the message; when the kind is unbound, it logs a warning and
    returns: the session is unchanged, so it is not closed, no task is
    touched, and nothing is raised. *)
Theorem on_message_dispatches (handlers : gmap string Handler) message s l :
  let l1 :=
    emit (ELog SESSION DEBUG (msg_on_message (self_id s) (handler message))) l in
  match handlers !! handler message with
  | Some handler_func =>
      DMLSessionBase.on_message handlers message {| self := s; loop := l |}
      = handler_func message {| self := s; loop := l1 |}
  | None =>
      ∃ st',
        DMLSessionBase.on_message handlers message {| self := s; loop := l |}
        = Ok tt st' ∧
        self st' = s ∧
        tasks (loop st') = tasks l ∧
        trace (loop st')
        = trace l
            ++ [ELog SESSION DEBUG (msg_on_message (self_id s) (handler message));
                ELog SESSION WARNING (msg_no_handler (self_id s) (handler message))]
  end.
Proof.
  unfold DMLSessionBase.on_message. run_monad; simpl.
  destruct (handlers !! handler message) as [f|]; [reflexivity|].
  eexists. split; [reflexivity|]. simpl.
  rewrite <- app_assoc. done.
Qed.

(** ** The server endpoint and its protocol *)

Lemma first_free_spec al n :
  ∀ i, match IDAllocator.first_free al i n with
       | Some j => (i ≤ j < i + Z.of_nat n)%Z ∧ (j ∉ al)
                   ∧ (∀ x, (i ≤ x < j)%Z → x ∈ al)
       | None => ∀ x, (i ≤ x < i + Z.of_nat n)%Z → x ∈ al
       end.
Proof.
  induction n as [|n IH]; intros i; simpl.
  - intros x Hx. lia.
  - destruct (decide (i ∈ al)) as [Hi|Hi].
    + specialize (IH (i + 1)%Z).
      destruct (IDAllocator.first_free al (i + 1) n) as [j|].
      * destruct IH as (Hj & Hnot & Hbelow). split; [lia|]. split; [done|].
        intros x Hx. destruct (decide (x = i)) as [->|]; [done|].
        apply Hbelow. lia.
      * intros x Hx. destruct (decide (x = i)) as [->|]; [done|].
        apply IH. lia.
    + split; [lia|]. split; [done|]. intros x Hx. lia.
Qed.

Lemma allocate_Some a i a' :
  IDAllocator.allocate a = Some (i, a') →
  (i ∉ allocated a) ∧ (min_id a ≤ i ≤ max_id a)%Z ∧
  allocated a' = {[i]} ∪ allocated a ∧
  min_id a' = min_id a ∧ max_id a' = max_id a.
Proof.
  unfold IDAllocator.allocate.
  pose proof (first_free_spec (allocated a) (Z.to_nat (max_id a - min_id a + 1))
                (min_id a)) as H.
  destruct (IDAllocator.first_free _ _ _) as [j|]; [|discriminate].
  intros [= <- <-]. destruct H as (Hj & Hnot & _). simpl.
  repeat split; try done; lia.
Qed.


Lemma construct_ok c r alive0 l t id :
  construct c t id None None {| self := blank r c alive0; loop := l |}
  = Ok tt (built c r alive0 l t id).
Proof. destruct c; reflexivity. Qed.

Lemma built_attrs c r alive0 l t id :
  let s := self (built c r alive0 l t id) in
  this s = r ∧ self_id s = id ∧ transport s = Some t ∧
  _keep_alive_task s = Attr None ∧ access_level s = value NEW ∧
  keep_alive_interval s = 60%Z ∧ ensure_alive_interval s = 10%Z ∧
  alive s = alive0 ∧ class s = c.
Proof. destruct c; repeat split. Qed.

Lemma create_session_run t w i a :
  IDAllocator.allocate (session_id_allocator (server w)) = Some (i, a) →
  Server.create_session t w = Ok (next_ref w) (created t i a w).
Proof.
  intros Ha. unfold Server.create_session, Server.allocate. run_monad.
  rewrite Ha. cbn [set_server server SESSION_CLS set_session_id_allocator
                   set_heap set_next_ref heap wloop next_ref engine_alive].
  rewrite lookup_insert_eq, construct_ok.
  unfold created. cbn. rewrite insert_insert_eq. reflexivity.
Qed.

Lemma create_session_fails t w :
  IDAllocator.allocate (session_id_allocator (server w)) = None →
  Server.create_session t w = Raise AllocationError w.
Proof.
  intros Ha. unfold Server.create_session, Server.allocate. run_monad.
  by rewrite Ha.
Qed.

Lemma connection_made_refused t p w :
  p_server p = true →
  IDAllocator.allocate (session_id_allocator (server w)) = None →
  ServerProtocol.connection_made t p w = Ok p (refused t w).
Proof.
  intros Hp Ha. unfold ServerProtocol.connection_made, ProtocolBase.connection_made.
  rewrite Hp. cbv [mbind M_bind mret M_ret try_except wlog modify].
  rewrite create_session_fails by exact Ha.
  reflexivity.
Qed.

Lemma connection_made_connected t p w i a :
  p_server p = true →
  IDAllocator.allocate (session_id_allocator (server w)) = Some (i, a) →
  ServerProtocol.connection_made t p w
  = Ok {| p_session := Some (next_ref w); p_server := true |} (connected t i a w).
Proof.
  intros Hp Ha. unfold ServerProtocol.connection_made, ProtocolBase.connection_made.
  rewrite Hp. cbv [mbind M_bind mret M_ret try_except wlog modify].
  rewrite (create_session_run _ _ i a) by exact Ha.
  unfold call, CSession.on_connected. cbv [mbind M_bind mret M_ret gets on_loop modify].
  cbn [created heap next_ref set_wloop wloop].
  rewrite lookup_insert_eq. cbn [self loop].
  unfold connected, wemit, created, set_wloop, set_heap.
  cbn [heap next_ref wloop server client engine_alive].
  rewrite insert_insert_eq.
  destruct (SESSION_CLS (server w)); reflexivity.
Qed.

Lemma connection_lost_run r s k a w :
  heap w !! r = Some s →
  _keep_alive_task s = Attr k →
  IDAllocator.free (self_id s) (session_id_allocator (server w)) = Some a →
  ServerProtocol.connection_lost {| p_session := Some r; p_server := true |} w
  = Ok {| p_session := None; p_server := false |} (torn_down r s k a w).
Proof.
  intros Hr Hk Ha.
  unfold ServerProtocol.connection_lost, ProtocolBase.connection_lost, Server.free.
  cbv [mbind M_bind mret M_ret wlog modify call gets p_session p_server].
  simpl. rewrite Hr. simpl. rewrite Ha. simpl.
  rewrite (insert_id _ _ _ Hr), Hr, (close_run _ _ _ k Hk).
  reflexivity.
Qed.


(** ** Refusing a connection *)

(** C5: when the allocator has no free identifier, so that [allocate]
    raises [AllocationError], [connection_made] returns after logging the
    refusal and closing the raw transport: no session object is created, no
    task is scheduled, the protocol object holds no session, and the server
    is as it was.  When the allocator hands out an identifier, the new
    session is registered under it and [on_connected] is called on it, as
    the last effect. *)
Theorem connection_made_refuses_or_connects t p w :
  p_server p = true →
  match IDAllocator.allocate (session_id_allocator (server w)) with
  | None =>
      Server.allocate w = Raise AllocationError w ∧
      ∃ w',
        ServerProtocol.connection_made t p w = Ok p w' ∧
        trace (wloop w')
        = trace (wloop w)
            ++ [ELog PROTOCOL DEBUG (msg_connection_made (peer_host t) (peer_port t));
                ELog PROTOCOL WARNING msg_alloc_failed;
                ELog PROTOCOL WARNING msg_refusing;
                ETransportClose (peer_transport t)] ∧
        tasks (wloop w') = tasks (wloop w) ∧
        heap w' = heap w ∧
        next_ref w' = next_ref w ∧
        server w' = server w ∧
        client w' = client w
  | Some (i, a) =>
      ∃ w' s tr,
        ServerProtocol.connection_made t p w
        = Ok {| p_session := Some (next_ref w); p_server := true |} w' ∧
        heap w' !! next_ref w = Some s ∧
        self_id s = i ∧
        transport s = Some (peer_transport t) ∧
        sessions (server w') !! i = Some (next_ref w) ∧
        trace (wloop w') = tr ++ [EOnConnected (next_ref w)] ∧
        ETransportClose (peer_transport t)
          ∉ drop (length (trace (wloop w))) (trace (wloop w'))
  end.
Proof.
  intros Hp.
  destruct (IDAllocator.allocate (session_id_allocator (server w)))
    as [[i a]|] eqn:Ha.
  - eexists _, _, _. split; [by apply connection_made_connected|].
    unfold connected, created, wemit. simpl.
    rewrite lookup_insert_eq. split; [reflexivity|].
    destruct (built_attrs (SESSION_CLS (server w)) (next_ref w) (engine_alive w)
                (emit (ELog PROTOCOL DEBUG
                         (msg_connection_made (peer_host t) (peer_port t)))
                   (wloop w)) (peer_transport t) i)
      as (_ & Hid & Htr & _).
    split; [exact Hid|]. split; [exact Htr|].
    rewrite lookup_insert_eq. split; [reflexivity|]. split; [reflexivity|].
    destruct (SESSION_CLS (server w)); simpl;
      rewrite <- !app_assoc, drop_app_length; simpl;
      intros Hin;
      repeat (apply elem_of_cons in Hin as [Hin|Hin]; [discriminate|]);
      by apply elem_of_nil in Hin.
  - split.
    { unfold Server.allocate. by rewrite Ha. }
    eexists. split; [by apply connection_made_refused|].
    unfold refused, wemit. simpl. rewrite <- !app_assoc. simpl.
    by destruct w.
Qed.

Lemma connection_made_refuses_or_connects_witness :
  p_server ServerProtocol.__init__ = true ∧
  (∃ w',
     ServerProtocol.connection_made peer0 ServerProtocol.__init__ full_world
     = Ok ServerProtocol.__init__ w' ∧
     heap w' = heap full_world ∧
     server w' = server full_world) ∧
  (∃ w' s,
     ServerProtocol.connection_made peer0 ServerProtocol.__init__ world0
     = Ok {| p_session := Some 0; p_server := true |} w' ∧
     heap w' !! 0 = Some s ∧ self_id s = 1%Z).
Proof.
  split; [reflexivity|]. split.
  - pose proof (connection_made_refuses_or_connects peer0
                  ServerProtocol.__init__ full_world eq_refl) as H.
    assert (Ha : IDAllocator.allocate (session_id_allocator (server full_world))
                 = None) by (vm_compute; reflexivity).
    rewrite Ha in H. destruct H as (_ & w' & Hrun & _ & _ & Hheap & _ & Hsrv & _).
    exists w'. split; [exact Hrun|]. split; [exact Hheap|exact Hsrv].
  - pose proof (connection_made_refuses_or_connects peer0
                  ServerProtocol.__init__ world0 eq_refl) as H.
    assert (Ha : IDAllocator.allocate (session_id_allocator (server world0))
                 = Some (1%Z, session_id_allocator (server world1)))
      by (vm_compute; reflexivity).
    rewrite Ha in H. destruct H as (w' & s & _ & Hrun & Hs & Hid & _).
    exists w', s. split; [exact Hrun|]. split; [exact Hs|exact Hid].
Defined.

(** ** Registration and release of a server session *)




(** ** Default intervals *)

Lemma client_create_session_run t w :
  Client.create_session t w
  = Ok (next_ref w)
       (let r := next_ref w in
        let st := built (c_SESSION_CLS (client w)) r (engine_alive w) (wloop w) t 0 in
        {| heap := <[r := self st]> (heap w);
           next_ref := S r;
           wloop := loop st;
           server := server w;
           client := set_c_session (Some r) (client w);
           engine_alive := engine_alive w |}).
Proof.
  unfold Client.create_session. run_monad. simpl.
  rewrite lookup_insert_eq, construct_ok. simpl.
  rewrite insert_insert_eq. reflexivity.
Qed.

(** C9: a raw client session, [ClientSessionBase], built without a
    keep-alive interval uses the default 10, and a server session
    ([ServerSessionBase], [ServerSession], [ServerDMLSession]) uses the
    default 60.  The concrete client classes [ClientSession] and
    [ClientDMLSession] declare the default 60 of their own and hand it down
    to [ClientSessionBase], so that a session built by a client endpoint
    has the interval 60. *)
Theorem default_keep_alive_intervals t id eai st w :
  keep_alive_interval
    (self (state_of (ClientSessionBase.__init__ t None eai st))) = 10%Z ∧
  keep_alive_interval
    (self (state_of (ServerSessionBase.__init__ t None eai st))) = 60%Z ∧
  keep_alive_interval
    (self (state_of (ServerSession.__init__ t id None eai st))) = 60%Z ∧
  keep_alive_interval
    (self (state_of (ServerDMLSession.__init__ t id None eai st))) = 60%Z ∧
  keep_alive_interval
    (self (state_of (ClientSession.__init__ t id None eai st))) = 60%Z ∧
  keep_alive_interval
    (self (state_of (ClientDMLSession.__init__ t id None eai st))) = 60%Z ∧
  (∃ w' s, Client.create_session t w = Ok (next_ref w) w' ∧
           heap w' !! next_ref w = Some s ∧
           keep_alive_interval s = 60%Z).
Proof.
  do 6 (split; [reflexivity|]).
  eexists _, _. split; [apply client_create_session_run|]. simpl.
  rewrite lookup_insert_eq. split; [reflexivity|].
  by destruct (built_attrs (c_SESSION_CLS (client w)) (next_ref w) (engine_alive w)
                 (wloop w) t 0) as (_ & _ & _ & _ & _ & -> & _).
Qed.

(** * Further properties of the lifecycle *)

(** ** Lifetimes as sequences of steps *)

Lemma Prim_attr st st' :
  Prim st st' →
  (∃ k, _keep_alive_task (self st) = Attr k) →
  ∃ k, _keep_alive_task (self st') = Attr k.
Proof. intros [] ?; simpl; eauto. Qed.

Lemma rtc_Prim_attr st st' :
  rtc Prim st st' →
  (∃ k, _keep_alive_task (self st) = Attr k) →
  ∃ k, _keep_alive_task (self st') = Attr k.
Proof. induction 1; eauto using Prim_attr. Qed.

Lemma perform_Prim c st :
  (∃ k, _keep_alive_task (self st) = Attr k) →
  ∃ st', perform c st = Ok tt st' ∧ rtc Prim st st'.
Proof.
  destruct st as [s l]. intros [k Hk]; simpl in Hk.
  destruct c; simpl.
  - rewrite on_established_run. eexists; split; [done|].
    apply rtc_once. constructor.
  - rewrite (close_run _ _ _ k Hk). eexists; split; [done|].
    apply rtc_once. by constructor.
  - rewrite (on_timeout_run _ _ k Hk). eexists; split; [done|].
    eapply rtc_l; [apply prim_log|]. apply rtc_once. by constructor.
  - rewrite (on_invalid_packet_run _ _ k Hk). eexists; split; [done|].
    eapply rtc_l; [apply prim_log|]. apply rtc_once. by constructor.
  - rewrite (on_invalid_message_run _ _ k Hk). eexists; split; [done|].
    eapply rtc_l; [apply prim_log|]. apply rtc_once. by constructor.
  - cbv [mbind M_bind mret M_ret].
    rewrite (_ensure_alive_turn_run _ _ k Hk).
    destruct (alive s); (eexists; split; [done|]); [done|].
    eapply rtc_l; [apply prim_log|]. apply rtc_once. by constructor.
  - cbv [mbind M_bind mret M_ret].
    destruct (_keep_alive_turn_run timedelta s l) as [arg ->].
    eexists; split; [done|]. apply rtc_once. constructor.
  - eexists; split; [reflexivity|]. apply rtc_once. constructor.
Qed.

Lemma perform_all_Prim cs st :
  (∃ k, _keep_alive_task (self st) = Attr k) →
  ∃ st', perform_all cs st = Ok tt st' ∧ rtc Prim st st'.
Proof.
  revert st. induction cs as [|c cs IH]; intros st Hk; simpl.
  - by exists st.
  - destruct (perform_Prim c st Hk) as (st1 & H1 & Hs1).
    destruct (IH st1 (rtc_Prim_attr _ _ Hs1 Hk)) as (st2 & H2 & Hs2).
    exists st2. split; [|by etrans].
    cbv [mbind M_bind]. by rewrite H1.
Qed.

Lemma perform_all_app cs1 cs2 st st1 :
  perform_all cs1 st = Ok tt st1 →
  perform_all (cs1 ++ cs2) st = perform_all cs2 st1.
Proof.
  revert st. induction cs1 as [|c cs1 IH]; intros st; simpl.
  - by intros [= ->].
  - cbv [mbind M_bind]. destruct (perform c st) as [[] st'|]; [|done].
    apply IH.
Qed.

Lemma lifetime_split c t id kai eai cs st0 st :
  construct c t id kai eai st0 = Ok tt st →
  lifetime c t id kai eai cs st0 = perform_all cs st.
Proof. intros H. unfold lifetime. cbv [mbind M_bind]. by rewrite H. Qed.

Lemma transport_closes_app tr1 tr2 :
  transport_closes (tr1 ++ tr2) = transport_closes tr1 + transport_closes tr2.
Proof. unfold transport_closes. by rewrite filter_app, length_app. Qed.

Lemma transport_closes_singleton e :
  transport_closes [e] = if is_transport_close e then 1 else 0.
Proof. by destruct e. Qed.

(** The session a constructor leaves on a blank object. *)
Lemma construct_shape c r alive0 l t id kai eai :
  ∃ st w,
    construct c t id kai eai {| self := blank r c alive0; loop := l |} = Ok tt st ∧
    transport (self st) = Some t ∧
    _ensure_alive_task (self st) = Some w ∧
    length (tasks l) ≤ w ∧
    _keep_alive_task (self st) = Attr None ∧
    length (tasks l) ≤ length (tasks (loop st)) ∧
    take (length (tasks l)) (tasks (loop st)) = tasks l ∧
    transport_closes (trace (loop st)) = transport_closes (trace l) ∧
    access_level (self st) = value NEW ∧
    this (self st) = r.
Proof.
  destruct c; eexists _, _; (split; [reflexivity|]); cbn -[transport_closes].
  all: split; [reflexivity|]. all: split; [reflexivity|].
  all: split; [rewrite ?length_app; lia|]. all: split; [reflexivity|].
  all: split; [rewrite ?length_app; lia|].
  all: split; [by rewrite <- ?app_assoc, take_app_length|].
  all: split;
    [rewrite ?transport_closes_app, ?transport_closes_singleton; cbn; lia|].
  all: split; reflexivity.
Qed.

Lemma lifetime_steps c r alive0 l t id kai eai cs :
  ∃ st0 st,
    construct c t id kai eai {| self := blank r c alive0; loop := l |} = Ok tt st0 ∧
    lifetime c t id kai eai cs {| self := blank r c alive0; loop := l |} = Ok tt st ∧
    rtc Prim st0 st.
Proof.
  destruct (construct_shape c r alive0 l t id kai eai)
    as (st0 & w & H0 & _ & _ & _ & Hk & _).
  destruct (perform_all_Prim cs st0) as (st & H & Hs); [by eexists|].
  exists st0, st. split; [done|]. split; [|done].
  by rewrite (lifetime_split _ _ _ _ _ _ _ _ H0).
Qed.

(** ** The access level *)

Lemma perform_level c st st' :
  (∃ k, _keep_alive_task (self st) = Attr k) →
  perform c st = Ok tt st' →
  access_level (self st')
  = if decide (c = call_on_established) then value ESTABLISHED
    else access_level (self st).
Proof.
  destruct st as [s l]. intros [k Hk]; simpl in Hk.
  destruct c; simpl.
  - rewrite on_established_run. by intros [= <-].
  - rewrite (close_run _ _ _ k Hk). by intros [= <-].
  - rewrite (on_timeout_run _ _ k Hk). by intros [= <-].
  - rewrite (on_invalid_packet_run _ _ k Hk). by intros [= <-].
  - rewrite (on_invalid_message_run _ _ k Hk). by intros [= <-].
  - cbv [mbind M_bind mret M_ret].
    rewrite (_ensure_alive_turn_run _ _ k Hk).
    destruct (alive s); by intros [= <-].
  - cbv [mbind M_bind mret M_ret].
    destruct (_keep_alive_turn_run timedelta s l) as [arg ->]. by intros [= <-].
  - by intros [= <-].
Qed.

Lemma perform_all_level cs st st' :
  (∃ k, _keep_alive_task (self st) = Attr k) →
  perform_all cs st = Ok tt st' →
  access_level (self st')
  = if bool_decide (call_on_established ∈ cs) then value ESTABLISHED
    else access_level (self st).
Proof.
  revert st. induction cs as [|c cs IH]; intros st Hk; simpl.
  - by intros [= <-].
  - destruct (perform_Prim c st Hk) as (st1 & H1 & Hs1).
    cbv [mbind M_bind]. rewrite H1. intros H.
    rewrite (IH st1 (rtc_Prim_attr _ _ Hs1 Hk) H), (perform_level c st st1 Hk H1).
    destruct (decide (c = call_on_established)) as [->|Hc].
    + rewrite (bool_decide_eq_true_2 (_ ∈ _ :: _)) by apply list_elem_of_here.
      by destruct (bool_decide _).
    + destruct (decide (call_on_established ∈ cs)) as [Hin|Hin].
      * rewrite !bool_decide_eq_true_2; [done| |done]. by apply list_elem_of_further.
      * rewrite !bool_decide_eq_false_2; [done| |done].
        intros [?|?]%elem_of_cons; congruence.
Qed.

(** X1: the access level of a session is [NEW] from its construction
    until [on_established] is called, and [ESTABLISHED] from then on,
    whatever is called afterwards, [close] included: it never reverts. *)
Theorem access_level_follows_on_established c r alive0 l t id kai eai cs :
  ∃ st,
    lifetime c t id kai eai cs {| self := blank r c alive0; loop := l |} = Ok tt st ∧
    access_level (self st)
    = if bool_decide (call_on_established ∈ cs) then value ESTABLISHED
      else value NEW.
Proof.
  destruct (construct_shape c r alive0 l t id kai eai)
    as (st0 & w & H0 & _ & _ & _ & Hk & _ & _ & _ & Hl & _).
  destruct (perform_all_Prim cs st0) as (st & H & _); [by eexists|].
  exists st. rewrite (lifetime_split _ _ _ _ _ _ _ _ H0). split; [done|].
  rewrite (perform_all_level cs st0 st) by (by eauto). by rewrite Hl.
Qed.

(** ** Closing is final *)






(** ** The transport is closed once *)

Lemma transport_closes_emit e l :
  transport_closes (trace (emit e l))
  = transport_closes (trace l) + if is_transport_close e then 1 else 0.
Proof.
  unfold emit; simpl. by rewrite transport_closes_app, transport_closes_singleton.
Qed.

Lemma transport_closes_cancels o l :
  transport_closes (trace (cancels o l)) = transport_closes (trace l).
Proof.
  destruct o; simpl; [|done].
  rewrite transport_closes_app, transport_closes_singleton. simpl. lia.
Qed.

Lemma transport_closes_release e s l :
  transport_closes (trace (release e s l))
  = transport_closes (trace l) + match transport s with Some _ => 1 | None => 0 end.
Proof.
  unfold release. destruct (transport s); [|lia].
  rewrite !transport_closes_emit. simpl. lia.
Qed.

Lemma Prim_transport_closes n st st' :
  Prim st st' →
  transport_closes (trace (loop st)) = n + expected_closes (self st) →
  transport_closes (trace (loop st')) = n + expected_closes (self st').
Proof.
  intros [s l lg lv m|s l arg|s l k e Hk|s l|s l b]; unfold expected_closes;
    simpl; intros H.
  - rewrite transport_closes_app, transport_closes_singleton. simpl. lia.
  - rewrite transport_closes_app, transport_closes_singleton. simpl. lia.
  - rewrite transport_closes_release, !transport_closes_cancels, H.
    destruct (transport s); lia.
  - rewrite transport_closes_app. unfold transport_closes at 2. simpl. lia.
  - done.
Qed.

Lemma rtc_Prim_transport_closes n st st' :
  rtc Prim st st' →
  transport_closes (trace (loop st)) = n + expected_closes (self st) →
  transport_closes (trace (loop st')) = n + expected_closes (self st').
Proof. induction 1; eauto using Prim_transport_closes. Qed.

(** X3: over the whole lifetime of a session, whatever is called on it and
    however often, [transport.close()] has been called exactly once if the
    session is closed and not at all if it is open: a transport is never
    closed twice. *)
Theorem transport_is_closed_exactly_once c r alive0 l t id kai eai cs :
  ∃ st,
    lifetime c t id kai eai cs {| self := blank r c alive0; loop := l |} = Ok tt st ∧
    transport_closes (trace (loop st))
    = transport_closes (trace l)
      + match transport (self st) with Some _ => 0 | None => 1 end.
Proof.
  destruct (lifetime_steps c r alive0 l t id kai eai cs) as (st0 & st & H0 & H & Hs).
  destruct (construct_shape c r alive0 l t id kai eai)
    as (st0' & w & H0' & Ht & _ & _ & _ & _ & _ & Hn & _).
  rewrite H0 in H0'. injection H0' as <-.
  exists st. split; [done|].
  apply (rtc_Prim_transport_closes _ _ _ Hs).
  unfold expected_closes. rewrite Ht, Hn. lia.
Qed.

(** ** A session leaves the tasks of others alone *)

Lemma take_cancels n o l :
  (∀ h, o = Some h → n ≤ h) →
  take n (tasks (cancels o l)) = take n (tasks l).
Proof.
  destruct o as [h|]; simpl; [|done].
  intros Hh. apply take_alter_ge. by apply Hh.
Qed.

Lemma Prim_owns n ts st st' :
  Prim st st' →
  owns_from n st ∧ take n (tasks (loop st)) = ts →
  owns_from n st' ∧ take n (tasks (loop st')) = ts.
Proof.
  intros [s l lg lv m|s l arg|s l k e Hk|s l|s l b]; unfold owns_from;
    cbn [self loop]; intros [(Hlen & Hw & Hka) Hts].
  - done.
  - done.
  - split.
    + split; [by rewrite tasks_release, !length_cancels|]. by split.
    + rewrite tasks_release, !take_cancels; [done|done|].
      intros h ->. by apply Hka.
  - simpl. split.
    + split; [rewrite length_app; lia|]. split; [done|].
      intros h [= <-]. done.
    + by rewrite take_app_le.
  - done.
Qed.

Lemma rtc_Prim_owns n ts st st' :
  rtc Prim st st' →
  owns_from n st ∧ take n (tasks (loop st)) = ts →
  owns_from n st' ∧ take n (tasks (loop st')) = ts.
Proof. induction 1; eauto using Prim_owns. Qed.

(** X4: whatever is called on a session during its lifetime, the tasks
    that were in the event loop before it was constructed, those of other
    sessions, are left exactly as they were: a session only ever cancels
    tasks it has scheduled itself. *)
Theorem other_tasks_are_left_alone c r alive0 l t id kai eai cs :
  ∃ st,
    lifetime c t id kai eai cs {| self := blank r c alive0; loop := l |} = Ok tt st ∧
    take (length (tasks l)) (tasks (loop st)) = tasks l ∧
    (∀ h, h < length (tasks l) → tasks (loop st) !! h = tasks l !! h).
Proof.
  destruct (lifetime_steps c r alive0 l t id kai eai cs) as (st0 & st & H0 & H & Hs).
  destruct (construct_shape c r alive0 l t id kai eai)
    as (st0' & w & H0' & _ & Hw & Hwle & Hk & Hlen & Htake & _).
  rewrite H0 in H0'. injection H0' as <-.
  exists st. split; [done|].
  destruct (rtc_Prim_owns (length (tasks l)) (tasks l) _ _ Hs) as [_ Hts].
  { split; [|done]. split; [done|]. split.
    - intros h Hh. rewrite Hw in Hh. by injection Hh as <-.
    - intros h Hh. rewrite Hk in Hh. discriminate. }
  split; [done|]. intros h Hh.
  rewrite <- (lookup_take_lt (tasks (loop st)) (length (tasks l)) h Hh).
  by rewrite Hts.
Qed.

(** ** Calling [on_established] again, or late *)

Lemma Prim_this st st' : Prim st st' → this (self st') = this (self st).
Proof. by intros []. Qed.

Lemma rtc_Prim_this st st' : rtc Prim st st' → this (self st') = this (self st).
Proof. induction 1; [done|]. etrans; [eassumption|]. by apply Prim_this. Qed.

Lemma lifetime_this c r alive0 l t id kai eai cs st :
  lifetime c t id kai eai cs {| self := blank r c alive0; loop := l |} = Ok tt st →
  this (self st) = r ∧ Inv st.
Proof.
  intros H.
  destruct (lifetime_steps c r alive0 l t id kai eai cs) as (st0 & st' & H0 & H' & Hs).
  destruct (lifetime_Inv c r alive0 l t id kai eai cs) as (st'' & H'' & HI).
  rewrite H in H', H''. injection H' as <-. injection H'' as <-.
  split; [|done]. rewrite (rtc_Prim_this _ _ Hs).
  destruct (construct_shape c r alive0 l t id kai eai)
    as (st0' & w & H0' & _ & _ & _ & _ & _ & _ & _ & _ & Hr).
  rewrite H0 in H0'. by injection H0' as <-.
Qed.

Lemma on_established_run_st st :
  on_established st = Ok tt (established (self st) (loop st)).
Proof. destruct st. apply on_established_run. Qed.

Lemma close_run_st e st k :
  _keep_alive_task (self st) = Attr k →
  SessionBase.close e st
  = Ok tt {| self := closed (self st);
             loop := release e (self st)
                       (cancels k (cancels (_ensure_alive_task (self st)) (loop st))) |}.
Proof. destruct st. apply close_run. Qed.

(** X5: a second [on_established] schedules a second keep-alive task and
    overwrites the reference to the first, so that from then on two
    keep-alive tasks send for the session, and a later [close] cancels the
    second only: the first keeps running after the session is closed. *)
Theorem second_on_established_leaves_a_keep_alive_running
    c r alive0 l t id kai eai cs e :
  ∃ st1 st3,
    lifetime c t id kai eai cs {| self := blank r c alive0; loop := l |}
      = Ok tt st1 ∧
    lifetime c t id kai eai
      (cs ++ [call_on_established; call_on_established; call_close e])
      {| self := blank r c alive0; loop := l |} = Ok tt st3 ∧
    let h := length (tasks (loop st1)) in
    length (tasks (loop st3)) = S (S h) ∧
    runs (loop st3) h (_keep_alive r) ∧
    tasks (loop st3) !! S h = Some {| coro := _keep_alive r; cancelled := true |} ∧
    _keep_alive_task (self st3) = Attr None ∧
    transport (self st3) = None.
Proof.
  destruct (lifetime_Inv c r alive0 l t id kai eai cs) as ([s1 l1] & H1 & HI).
  destruct (lifetime_this _ _ _ _ _ _ _ _ _ _ H1) as [Hr _]. simpl in Hr.
  destruct (construct_shape c r alive0 l t id kai eai) as (st0 & w0 & H0 & _).
  rewrite (lifetime_split _ _ _ _ _ _ _ _ H0) in H1.
  assert (Hw : ∀ h, _ensure_alive_task s1 = Some h → h < length (tasks l1)).
  { intros h Hh. apply (inv_watchdog _ HI) in Hh. by eapply lookup_lt_Some. }
  set (st2 := established (self (established s1 l1)) (loop (established s1 l1))).
  set (n := length (tasks l1)).
  assert (Hk : _keep_alive_task (self st2) = Attr (Some (S n))).
  { subst st2 n. cbn. rewrite length_app. simpl. do 3 f_equal. lia. }
  assert (Htasks : tasks (loop st2)
                   = tasks l1 ++ [{| coro := _keep_alive r; cancelled := false |};
                                  {| coro := _keep_alive r; cancelled := false |}]).
  { subst st2. cbn. by rewrite Hr, <- app_assoc. }
  exists {| self := s1; loop := l1 |}. eexists. split.
  { by rewrite (lifetime_split _ _ _ _ _ _ _ _ H0). }
  split.
  { rewrite (lifetime_split _ _ _ _ _ _ _ _ H0), (perform_all_app _ _ _ _ H1).
    simpl. cbv [mbind M_bind mret M_ret].
    rewrite on_established_run, on_established_run_st. fold st2.
    rewrite (close_run_st e _ _ Hk). reflexivity. }
  cbv zeta. cbn [loop self]. fold n. rewrite tasks_release, !length_cancels, Htasks.
  change (_ensure_alive_task (self st2)) with (_ensure_alive_task s1).
  split; [rewrite length_app; simpl; lia|].
  split; [|split; [|done]].
  - unfold runs. rewrite ?tasks_release.
    rewrite tasks_cancels_ne by (intros [=]; lia).
    rewrite tasks_cancels_ne by (intros Hh; apply Hw in Hh; lia).
    rewrite Htasks. by apply list_lookup_middle.
  - rewrite ?tasks_release, tasks_cancels_eq.
    rewrite tasks_cancels_ne by (intros Hh; apply Hw in Hh; lia).
    rewrite Htasks.
    rewrite lookup_app_r by (unfold n; lia).
    by replace (S n - length (tasks l1)) with 1 by (unfold n; lia).
Qed.


(** ** Invalid input *)

(** X7: [on_invalid_packet] and [on_invalid_message] log a warning and
    close the session with [INVALID_MESSAGE]: on an open session the held
    tasks are cancelled and the transport is closed, in this order, after
    the warning; the session ends closed, with no task reference left. *)
Theorem invalid_input_closes_the_session s l k tr :
  _keep_alive_task s = Attr k →
  transport s = Some tr →
  let closing warning :=
    trace l ++ [ELog SESSION WARNING warning]
      ++ cancel_events (_ensure_alive_task s) ++ cancel_events k
      ++ [ELog SESSION DEBUG (msg_close (self_id s) INVALID_MESSAGE);
          ETransportClose tr] in
  ∃ st1 st2,
    SessionBase.on_invalid_packet {| self := s; loop := l |} = Ok tt st1 ∧
    DMLSessionBase.on_invalid_message {| self := s; loop := l |} = Ok tt st2 ∧
    trace (loop st1) = closing (msg_invalid_packet (self_id s)) ∧
    trace (loop st2) = closing (msg_invalid_message (self_id s)) ∧
    self st1 = closed s ∧
    self st2 = closed s.
Proof.
  intros Hk Ht closing. eexists _, _.
  split; [apply (on_invalid_packet_run s l k Hk)|].
  split; [apply (on_invalid_message_run s l k Hk)|].
  cbn [loop self]. rewrite !close_trace. subst closing.
  unfold close_events, release_events, emit. cbn [trace]. rewrite Ht.
  by rewrite <- !app_assoc.
Qed.

Lemma invalid_input_closes_the_session_witness :
  _keep_alive_task (self server_session_established) = Attr (Some 1) ∧
  transport (self server_session_established) = Some 7 ∧
  ∃ st1 st2,
    SessionBase.on_invalid_packet server_session_established = Ok tt st1 ∧
    DMLSessionBase.on_invalid_message server_session_established = Ok tt st2 ∧
    transport (self st1) = None ∧
    transport (self st2) = None.
Proof.
  split; [reflexivity|]. split; [reflexivity|].
  destruct (invalid_input_closes_the_session (self server_session_established)
              (loop server_session_established) (Some 1) 7 eq_refl eq_refl)
    as (st1 & st2 & H1 & H2 & _ & _ & Hs1 & Hs2).
  exists st1, st2. split; [exact H1|]. split; [exact H2|].
  by rewrite Hs1, Hs2.
Defined.

(** ** The watchdog of a live session *)

Lemma drive_watchdog_alive s k I horizon n :
  alive s = true →
  _keep_alive_task s = Attr k →
  ensure_alive_interval s = I → (0 < I)%Z →
  ∀ now fuel,
    (now ≤ horizon)%Z →
    Z.to_nat ((horizon - now) / I) = n →
    n < fuel →
    ∀ l,
      drive fuel (λ _, SessionBase._ensure_alive_turn) now horizon
        {| self := s; loop := l |}
      = Ok (Suspended (now + (Z.of_nat n + 1) * I)%Z) {| self := s; loop := l |}.
Proof.
  intros Ha Hk HI Hpos. induction n as [|n IH]; intros now fuel Hnow Hq Hfuel l;
    (destruct fuel as [|fuel]; [lia|]); simpl; cbv [mbind M_bind mret M_ret];
    rewrite (_ensure_alive_turn_run s l k Hk), Ha, HI.
  - assert ((horizon - now) / I = 0)%Z as Hq0.
    { pose proof (Z.div_pos (horizon - now) I). lia. }
    apply Z.div_small_iff in Hq0; [|lia].
    destruct (decide (now + I ≤ horizon)%Z); [lia|].
    do 2 f_equal. lia.
  - assert (1 ≤ (horizon - now) / I)%Z as Hq1 by lia.
    assert (I ≤ horizon - now)%Z as Hle.
    { destruct (decide (I ≤ horizon - now)%Z); [done|].
      rewrite Z.div_small in Hq1 by lia. lia. }
    destruct (decide (now + I ≤ horizon)%Z); [|lia].
    rewrite (IH (now + I)%Z fuel); [do 2 f_equal; lia|lia| |lia].
    replace (horizon - (now + I))%Z with (horizon - now + (-1) * I)%Z by lia.
    rewrite Z.div_add by lia. lia.
Qed.

(** X8: the watchdog only reads [alive]: as long as nothing sets the flag
    to false, a watchdog with interval [I > 0] started at [t0] checks at
    [t0], [t0 + I], ... and does nothing else; over any duration [D] it
    changes neither the session nor the loop nor the trace, and is asleep
    at the end. *)
Theorem watchdog_leaves_a_live_session_alone s l k I D t0 fuel :
  alive s = true →
  _keep_alive_task s = Attr k →
  ensure_alive_interval s = I →
  (0 < I)%Z →
  (0 ≤ D)%Z →
  Z.to_nat (D / I) < fuel →
  drive fuel (λ _, SessionBase._ensure_alive_turn) t0 (t0 + D)
    {| self := s; loop := l |}
  = Ok (Suspended (t0 + (D / I + 1) * I)%Z) {| self := s; loop := l |}.
Proof.
  intros Ha Hk HI Hpos HD Hfuel.
  rewrite (drive_watchdog_alive s k I (t0 + D)%Z (Z.to_nat (D / I)) Ha Hk HI Hpos
             t0 fuel); [|lia| |done].
  - do 2 f_equal. pose proof (Z.div_pos D I). rewrite Z2Nat.id by lia. done.
  - do 2 f_equal. lia.
Qed.

Lemma watchdog_leaves_a_live_session_alone_witness :
  alive (self server_session) = true ∧
  _keep_alive_task (self server_session) = Attr None ∧
  ensure_alive_interval (self server_session) = 10%Z ∧
  (0 < 10)%Z ∧ (0 ≤ 35)%Z ∧ Z.to_nat (35 / 10) < 5 ∧
  drive 5 (λ _, SessionBase._ensure_alive_turn) 0 (0 + 35)
    {| self := self server_session; loop := loop server_session |}
  = Ok (Suspended (0 + (35 / 10 + 1) * 10)%Z)
       {| self := self server_session; loop := loop server_session |}.
Proof.
  do 3 (split; [reflexivity|]). split; [lia|]. split; [lia|].
  split; [vm_compute; lia|].
  apply (watchdog_leaves_a_live_session_alone (self server_session)
           (loop server_session) None 10 35 0 5); try reflexivity; try lia.
  vm_compute; lia.
Defined.

(** ** The keep-alive task of a server session *)

Lemma send_args_emit_send r arg l :
  send_args r (trace (emit (ESendKeepAlive r arg) l))
  = send_args r (trace l) ++ [arg].
Proof.
  unfold send_args, emit; simpl. rewrite omap_app. simpl.
  by rewrite decide_True.
Qed.

Lemma drive_server_keep_alive s T horizon (td : Z → Z) n :
  keep_alive_interval s = T → (0 < T)%Z →
  ∀ now l fuel,
    (now ≤ horizon)%Z →
    Z.to_nat ((horizon - now) / T) = n →
    n < fuel →
    ∃ l',
      drive fuel (λ now, ServerSessionBase._keep_alive_turn (td now)) now horizon
        {| self := s; loop := l |}
      = Ok (Suspended (now + (Z.of_nat n + 1) * T)%Z) {| self := s; loop := l' |} ∧
      send_args (this s) (trace l')
      = send_args (this s) (trace l)
          ++ ((λ t, Some (td t)) <$> ticks (S n) now T) ∧
      tasks l' = tasks l.
Proof.
  intros HT Hpos. induction n as [|n IH]; intros now l fuel Hnow Hq Hfuel;
    (destruct fuel as [|fuel]; [lia|]);
    cbn [drive]; cbv [mbind M_bind mret M_ret];
    change (ServerSessionBase._keep_alive_turn (td now) {| self := s; loop := l |})
      with (Ok (Some (keep_alive_interval s))
              {| self := s;
                 loop := emit (ESendKeepAlive (this s) (Some (td now))) l |});
    rewrite HT.
  - assert ((horizon - now) / T = 0)%Z as Hq0.
    { pose proof (Z.div_pos (horizon - now) T). lia. }
    apply Z.div_small_iff in Hq0; [|lia].
    destruct (decide (now + T ≤ horizon)%Z); [lia|].
    eexists. split; [do 2 f_equal; lia|].
    rewrite send_args_emit_send. done.
  - assert (1 ≤ (horizon - now) / T)%Z as Hq1 by lia.
    assert (T ≤ horizon - now)%Z as Hle.
    { destruct (decide (T ≤ horizon - now)%Z); [done|].
      rewrite Z.div_small in Hq1 by lia. lia. }
    destruct (decide (now + T ≤ horizon)%Z); [|lia].
    destruct (IH (now + T)%Z (emit (ESendKeepAlive (this s) (Some (td now))) l) fuel)
      as (l' & Hrun & Hargs & Htasks); [lia| |lia|].
    { replace (horizon - (now + T))%Z with (horizon - now + (-1) * T)%Z by lia.
      rewrite Z.div_add by lia. lia. }
    exists l'. split; [|split].
    + rewrite Hrun. do 2 f_equal. lia.
    + rewrite Hargs, send_args_emit_send, <- app_assoc. done.
    + by rewrite Htasks.
Qed.

(** X9: a server keep-alive task with interval [T > 0] started at [t0]
    sends at [t0], [t0 + T], [t0 + 2T], ...: over a duration [D] it makes
    [⌊D/T⌋ + 1] sends, each carrying the value the server's
    [startup_timedelta] has at the time of that send, in this order. *)
Theorem server_keep_alive_carries_startup_timedelta s l T D t0 fuel (td : Z → Z) :
  keep_alive_interval s = T →
  (0 < T)%Z →
  (0 ≤ D)%Z →
  Z.to_nat (D / T) < fuel →
  ∃ st',
    drive fuel (λ now, ServerSessionBase._keep_alive_turn (td now)) t0 (t0 + D)
      {| self := s; loop := l |}
    = Ok (Suspended (t0 + (D / T + 1) * T)%Z) st' ∧
    send_args (this s) (trace (loop st'))
    = send_args (this s) (trace l)
        ++ ((λ t, Some (td t)) <$> ticks (S (Z.to_nat (D / T))) t0 T) ∧
    self st' = s ∧
    tasks (loop st') = tasks l.
Proof.
  intros HT Hpos HD Hfuel.
  destruct (drive_server_keep_alive s T (t0 + D)%Z td (Z.to_nat (D / T)) HT Hpos
              t0 l fuel) as (l' & Hrun & Hargs & Htasks); [lia| |done|].
  { do 2 f_equal. lia. }
  exists {| self := s; loop := l' |}.
  split; [|split; [exact Hargs|split; [reflexivity|exact Htasks]]].
  rewrite Hrun. do 2 f_equal.
  pose proof (Z.div_pos D T). rewrite Z2Nat.id by lia. reflexivity.
Qed.

Lemma server_keep_alive_carries_startup_timedelta_witness :
  let td now := Server.startup_timedelta now (server world0) in
  keep_alive_interval (self server_session_established) = 60%Z ∧
  (0 < 60)%Z ∧ (0 ≤ 130)%Z ∧ Z.to_nat (130 / 60) < 5 ∧
  ∃ st',
    drive 5 (λ now, ServerSessionBase._keep_alive_turn (td now)) 5 (5 + 130)
      {| self := self server_session_established;
         loop := loop server_session_established |}
    = Ok (Suspended (5 + (130 / 60 + 1) * 60)%Z) st' ∧
    send_args 0 (trace (loop st')) = [Some 5000%Z; Some 65000%Z; Some 125000%Z].
Proof.
  intros td. split; [reflexivity|]. split; [lia|]. split; [lia|].
  split; [vm_compute; lia|].
  destruct (server_keep_alive_carries_startup_timedelta
              (self server_session_established) (loop server_session_established)
              60 130 5 5 td eq_refl)
    as (st' & Hrun & Hargs & _); [lia|lia|vm_compute; lia|].
  exists st'. split; [exact Hrun|]. etrans; [exact Hargs|reflexivity].
Defined.

(** ** Registering handlers *)

(** X10: the decorator [msghandler(name)] binds [name] in the dispatch
    table, replacing an earlier binding of the same name and leaving the
    other names as they were: a message of kind [name] is dispatched to
    the handler registered last, and a message of another kind as before
    the registration. *)
Theorem msghandler_last_registration_wins
    (handlers : gmap string Handler) name (f1 f2 : Handler) message s l :
  (handler message = name →
   DMLSessionBase.on_message (msghandler name f2 (msghandler name f1 handlers))
     message {| self := s; loop := l |}
   = f2 message
       {| self := s;
          loop := emit (ELog SESSION DEBUG (msg_on_message (self_id s) name)) l |}) ∧
  (handler message ≠ name →
   DMLSessionBase.on_message (msghandler name f2 handlers) message
     {| self := s; loop := l |}
   = DMLSessionBase.on_message handlers message {| self := s; loop := l |}).
Proof.
  unfold DMLSessionBase.on_message, msghandler. run_monad; simpl. split.
  - intros ->. by rewrite lookup_insert_eq.
  - intros Hne. by rewrite lookup_insert_ne.
Qed.

(** * Further properties of the endpoints *)

(** ** Successive connections to a server *)

(** X11: two connections accepted one after the other get two distinct
    identifiers and two distinct session objects, each on its own
    transport, and the server's mapping holds both. *)
Theorem two_connections_get_distinct_sessions t1 t2 w i1 a1 i2 a2 :
  IDAllocator.allocate (session_id_allocator (server w)) = Some (i1, a1) →
  IDAllocator.allocate a1 = Some (i2, a2) →
  let r1 := next_ref w in
  let r2 := S (next_ref w) in
  ∃ w1 w2 s1 s2,
    ServerProtocol.connection_made t1 ServerProtocol.__init__ w
      = Ok {| p_session := Some r1; p_server := true |} w1 ∧
    ServerProtocol.connection_made t2 ServerProtocol.__init__ w1
      = Ok {| p_session := Some r2; p_server := true |} w2 ∧
    i1 ≠ i2 ∧
    heap w2 !! r1 = Some s1 ∧ heap w2 !! r2 = Some s2 ∧
    self_id s1 = i1 ∧ self_id s2 = i2 ∧
    transport s1 = Some (peer_transport t1) ∧
    transport s2 = Some (peer_transport t2) ∧
    sessions (server w2) !! i1 = Some r1 ∧
    sessions (server w2) !! i2 = Some r2.
Proof.
  intros Ha1 Ha2 r1 r2.
  destruct (allocate_Some _ _ _ Ha2) as (Hfree2 & _ & _).
  destruct (allocate_Some _ _ _ Ha1) as (_ & _ & Hal1 & _).
  assert (Hne : i1 ≠ i2).
  { intros ->. apply Hfree2. rewrite Hal1. by apply elem_of_union_l, elem_of_singleton. }
  eexists _, _, _, _.
  split; [by apply connection_made_connected|].
  split; [by apply (connection_made_connected t2 _ (connected t1 i1 a1 w) i2 a2)|].
  split; [exact Hne|].
  unfold connected, created, wemit. cbn [heap next_ref server sessions set_wloop
    set_sessions set_session_id_allocator wloop SESSION_CLS engine_alive].
  rewrite lookup_insert_ne by (subst r1; lia).
  rewrite !lookup_insert_eq.
  rewrite (lookup_insert_ne _ i2 i1) by done. rewrite lookup_insert_eq.
  split; [reflexivity|]. split; [reflexivity|].
  repeat match goal with
  | |- context [built ?c ?r ?a ?l ?t ?i] =>
      let H := fresh in
      pose proof (built_attrs c r a l t i) as H; cbv zeta in H;
      destruct H as (_ & -> & -> & _)
  end.
  done.
Qed.

Lemma two_connections_get_distinct_sessions_witness :
  IDAllocator.allocate (session_id_allocator (server world0))
    = Some (1%Z, session_id_allocator (server world1)) ∧
  (∃ a2, IDAllocator.allocate (session_id_allocator (server world1))
         = Some (2%Z, a2)) ∧
  ∃ w1 w2 s1 s2,
    ServerProtocol.connection_made peer0 ServerProtocol.__init__ world0
      = Ok {| p_session := Some 0; p_server := true |} w1 ∧
    ServerProtocol.connection_made peer1 ServerProtocol.__init__ w1
      = Ok {| p_session := Some 1; p_server := true |} w2 ∧
    heap w2 !! 0 = Some s1 ∧ heap w2 !! 1 = Some s2 ∧
    self_id s1 = 1%Z ∧ self_id s2 = 2%Z.
Proof.
  assert (Ha1 : IDAllocator.allocate (session_id_allocator (server world0))
                = Some (1%Z, session_id_allocator (server world1)))
    by (vm_compute; reflexivity).
  destruct (IDAllocator.allocate (session_id_allocator (server world1)))
    as [[i2 a2]|] eqn:Ha2; [|by vm_compute in Ha2].
  assert (i2 = 2%Z) as -> by (vm_compute in Ha2; congruence).
  split; [exact Ha1|]. split; [by exists a2|].
  destruct (two_connections_get_distinct_sessions peer0 peer1 world0 _ _ _ _ Ha1 Ha2)
    as (w1 & w2 & s1 & s2 & H1 & H2 & _ & Hs1 & Hs2 & Hi1 & Hi2 & _).
  by exists w1, w2, s1, s2.
Defined.

(** ** Reuse of an identifier *)




(** ** The client protocol *)

Lemma client_connection_made_run t w :
  ClientProtocol.connection_made t ClientProtocol.__init__ w
  = Ok {| cp_session := Some (next_ref w); cp_client := true |}
       (client_connected t w).
Proof.
  unfold ClientProtocol.connection_made, ProtocolBase.connection_made.
  cbn [cp_client ClientProtocol.__init__].
  cbv [mbind M_bind mret M_ret wlog modify].
  rewrite client_create_session_run.
  unfold call, CSession.on_connected. cbv [mbind M_bind mret M_ret gets on_loop modify].
  cbn [heap next_ref set_wloop wloop client engine_alive].
  rewrite lookup_insert_eq. cbn [self loop].
  unfold client_connected, wemit, set_wloop, set_heap.
  cbn [heap next_ref wloop server client engine_alive].
  rewrite insert_insert_eq.
  destruct (c_SESSION_CLS (client w)); reflexivity.
Qed.

Lemma built_trace c r alive0 l t id :
  ∃ evs, trace (loop (built c r alive0 l t id)) = trace l ++ evs.
Proof.
  destruct c; eexists; unfold built; simpl;
    first [reflexivity | rewrite <- app_assoc; reflexivity].
Qed.

(** X13: on a transport whose peer name is a pair of host and port, the
    [connection_made] of a fresh client protocol object needs no
    identifier from an allocator: it creates a session with the fixed
    identifier 0 on the transport, in the access level [NEW], records it as
    the client's session, and calls [on_connected] on it as its last
    effect, leaving the server endpoint alone.  On any other peer name (the
    4-tuple of IPv6, a path, [None]) the log call at its start raises
    [TypeError]: no session is created and the world is unchanged. *)
Theorem client_connection_creates_session_zero t peername w :
  match peername with
  | peername_inet host port =>
      ∃ w' s evs,
        ClientConnection.connection_made t peername
          ClientProtocol.__init__ w
        = Ok (inr {| cp_session := Some (next_ref w); cp_client := true |}) w' ∧
        heap w' !! next_ref w = Some s ∧
        self_id s = 0%Z ∧
        transport s = Some t ∧
        access_level s = value NEW ∧
        c_session (client w') = Some (next_ref w) ∧
        server w' = server w ∧
        trace (wloop w')
        = trace (wloop w) ++ ELog PROTOCOL DEBUG (msg_connection_made host port)
            :: evs ++ [EOnConnected (next_ref w)]
  | _ =>
      ∃ e,
        ClientConnection.connection_made t peername
          ClientProtocol.__init__ w = Ok (inl e) w
  end.
Proof.
  destruct peername as [host port| | |].
  2-4: (exists (TypeError "'Connection made: %r, %d' % peername"); reflexivity).
  unfold ClientConnection.connection_made. cbn [peer_of].
  cbv [mbind M_bind mret M_ret]. rewrite client_connection_made_run.
  unfold client_connected.
  cbn [heap client c_session set_c_session server wloop peer_transport
       peer_host peer_port].
  set (l0 := wloop (wemit (ELog PROTOCOL DEBUG (msg_connection_made host port)) w)).
  destruct (built_trace (c_SESSION_CLS (client w)) (next_ref w) (engine_alive w)
              l0 t 0) as [evs Hevs].
  destruct (built_attrs (c_SESSION_CLS (client w)) (next_ref w) (engine_alive w)
              l0 t 0) as (_ & Hid & Htr & _ & Hlevel & _).
  eexists _, _, evs. split; [reflexivity|].
  cbn [heap client c_session set_c_session server wloop].
  rewrite lookup_insert_eq. split; [reflexivity|].
  split; [exact Hid|]. split; [exact Htr|]. split; [exact Hlevel|].
  split; [reflexivity|]. split; [reflexivity|].
  unfold emit at 1. cbn [trace]. rewrite Hevs. subst l0. unfold wemit, emit.
  cbn [wloop set_wloop trace]. by rewrite <- !app_assoc.
Qed.

(** X14: when a client connection is lost, the session is closed with
    [SESSION_DIED] and the protocol object lets go of it, but the client
    endpoint is not told: its [session] attribute is what it was, so it
    still refers to the closed session.  A repeated [connection_lost] only
    logs. *)
Theorem client_connection_lost_closes_the_session r s k w :
  heap w !! r = Some s →
  _keep_alive_task s = Attr k →
  ∃ w1 w2,
    ClientProtocol.connection_lost {| cp_session := Some r; cp_client := true |} w
      = Ok {| cp_session := None; cp_client := false |} w1 ∧
    heap w1 = <[r := closed s]> (heap w) ∧
    trace (wloop w1)
      = trace (wloop w) ++ [ELog PROTOCOL DEBUG msg_connection_lost]
          ++ cancel_events (_ensure_alive_task s) ++ cancel_events k
          ++ release_events SESSION_DIED s ∧
    client w1 = client w ∧
    server w1 = server w ∧
    ClientProtocol.connection_lost {| cp_session := None; cp_client := false |} w1
      = Ok {| cp_session := None; cp_client := false |} w2 ∧
    heap w2 = heap w1 ∧
    tasks (wloop w2) = tasks (wloop w1).
Proof.
  intros Hr Hk. eexists _, _. split.
  { unfold ClientProtocol.connection_lost, ProtocolBase.connection_lost.
    cbv [mbind M_bind mret M_ret wlog modify call gets cp_session cp_client].
    simpl. rewrite Hr, (close_run _ _ _ k Hk). reflexivity. }
  cbn [heap wloop client server set_wloop set_heap loop self].
  split; [reflexivity|]. split.
  { rewrite close_trace. unfold close_events, emit. cbn [trace].
    by rewrite <- !app_assoc. }
  by repeat split.
Qed.

Lemma client_connection_lost_closes_the_session_witness :
  let w := client_connected peer0 world0 in
  (∃ s, heap w !! 0 = Some s ∧ _keep_alive_task s = Attr None) ∧
  ∃ w1 s1,
    ClientProtocol.connection_lost {| cp_session := Some 0; cp_client := true |} w
      = Ok {| cp_session := None; cp_client := false |} w1 ∧
    heap w1 !! 0 = Some s1 ∧
    transport s1 = None ∧
    c_session (client w1) = Some 0.
Proof.
  intros w.
  destruct (heap w !! 0) as [s|] eqn:Hs; [|by vm_compute in Hs].
  assert (Hk : _keep_alive_task s = Attr None)
    by (vm_compute in Hs; by injection Hs as <-).
  split; [by exists s|].
  destruct (client_connection_lost_closes_the_session 0 s None w Hs Hk)
    as (w1 & w2 & H1 & Hheap & _ & Hc & _).
  exists w1, (closed s). split; [exact H1|].
  split; [rewrite Hheap; apply lookup_insert_eq|]. split; [reflexivity|].
  rewrite Hc. reflexivity.
Defined.

(** ** Constructing a DML client *)

(** X15: [DMLClient] cannot be constructed.  Its [__init__] takes one
    positional argument, [port], and hands exactly that one argument to
    [Client.__init__], which needs two, [host] and [port]: whatever the
    arguments, the call ends in a [TypeError], raised by [Client.__init__]
    when [DMLClient.__init__] is given its one argument. *)
Theorem DMLClient_cannot_be_constructed {A} (args : list A) :
  DMLClient.__init__ args
  = inl (TypeError (if decide (length args = 1) then "Client.__init__"
                    else "DMLClient.__init__")) ∧
  (∀ host port : A, DMLClient.Client__init__ [host; port] = inr (host, port)).
Proof.
  split; [|done]. by destruct args as [|x [|y args]].
Qed.

(** ** Bytes in and out *)

(** X16: [send_packet_data] hands all of [data] to the transport in one
    write, whatever [size] says, as long as the session is open; once the
    session is closed it only logs, and nothing is written any more. *)
Theorem send_packet_data_writes_only_while_open s l k out data size e :
  _keep_alive_task s = Attr k →
  (∀ tr, transport s = Some tr →
     Packets.send_packet_data data size
       {| under := {| self := s; loop := l |}; wire := out |}
     = Ok tt {| under := {| self := s; loop := l |};
                wire := out ++ [OLogSend (self_id s) data size; OWrite tr data] |}) ∧
  ∃ st,
    (lift (SessionBase.close e) ;; Packets.send_packet_data data size)
      {| under := {| self := s; loop := l |}; wire := out |} = Ok tt st ∧
    wire st = out ++ [OLogSend (self_id s) data size] ∧
    written (wire st) = written out ∧
    self (under st) = closed s.
Proof.
  intros Hk. split.
  - intros tr Ht. unfold Packets.send_packet_data, output.
    cbv [mbind M_bind mret M_ret gets modify]. cbn [under wire self]. rewrite Ht.
    cbn [under wire]. by rewrite <- app_assoc.
  - eexists. split.
    { unfold lift, Packets.send_packet_data, output.
      cbv [mbind M_bind mret M_ret gets modify]. cbn [under wire].
      rewrite (close_run _ _ _ k Hk). cbn [under wire self]. reflexivity. }
    cbn [wire under self]. split; [reflexivity|]. split; [|reflexivity].
    unfold written. rewrite omap_app. cbn. by rewrite app_nil_r.
Qed.

Lemma send_packet_data_writes_only_while_open_witness :
  let s := self server_session_established in
  let l := loop server_session_established in
  _keep_alive_task s = Attr (Some 1) ∧
  Packets.send_packet_data [Byte.x0d; Byte.xf0] 2
    {| under := {| self := s; loop := l |}; wire := [] |}
  = Ok tt {| under := {| self := s; loop := l |};
             wire := [OLogSend 1 [Byte.x0d; Byte.xf0] 2;
                      OWrite 7 [Byte.x0d; Byte.xf0]] |}.
Proof.
  intros s l. split; [reflexivity|].
  destruct (send_packet_data_writes_only_while_open s l (Some 1) []
              [Byte.x0d; Byte.xf0] 2 SESSION_DIED eq_refl) as [Hopen _].
  exact (Hopen 7 eq_refl).
Defined.

(** X17: bytes that arrive on a connection without a session never reach
    a session: after a refused connection, and after [connection_lost],
    [data_received] only logs them.  On a connection with a session it
    hands the bytes and their length to the session's [process_data]. *)
Theorem data_without_a_session_is_dropped
    (process_data : list Byte.byte → nat → M SS unit) data out t w r s k a :
  (IDAllocator.allocate (session_id_allocator (server w)) = None →
   ∃ p w',
     ServerProtocol.connection_made t ServerProtocol.__init__ w = Ok p w' ∧
     Packets.data_received process_data data (p_session p)
       {| under := w'; wire := out |}
     = Ok tt {| under := w'; wire := out ++ [OLogReceived data (length data)] |}) ∧
  (heap w !! r = Some s → _keep_alive_task s = Attr k →
   IDAllocator.free (self_id s) (session_id_allocator (server w)) = Some a →
   ∃ p w',
     ServerProtocol.connection_lost {| p_session := Some r; p_server := true |} w
       = Ok p w' ∧
     Packets.data_received process_data data (p_session p)
       {| under := w'; wire := out |}
     = Ok tt {| under := w'; wire := out ++ [OLogReceived data (length data)] |}) ∧
  Packets.data_received process_data data (Some r) {| under := w; wire := out |}
  = lift (call r (process_data data (length data)))
      {| under := w; wire := out ++ [OLogReceived data (length data)] |}.
Proof.
  split; [|split; [|reflexivity]].
  - intros Ha. eexists _, _. split; [by apply connection_made_refused|]. reflexivity.
  - intros Hr Hk Ha. eexists _, _.
    split; [by apply (connection_lost_run r s k a)|]. reflexivity.
Qed.
